(** * A RESTful Firebase client: embedding of firebase.go

    The Go package has one struct, [F] (a location in the remote tree), an
    interface [Api] (the transport) and its HTTP implementation [client].
    Go strings are [string], [[]byte] is [list byte] (Go's nil slice and the
    empty slice are both the empty list: the code only takes their [len] and
    hands them to the JSON decoder), [map[string]string] is
    [gmap string string] (a nil map reads as the empty map), and a Go [int]
    status code is a [Z]. *)

From Stdlib Require Import ZArith Ascii String.
From Stdlib.Strings Require Import Byte.
From stdpp Require Import gmap strings list fin_maps sorting.

Local Open Scope string_scope.

(** ** Go strings *)

Module strings.

(** [strings.HasSuffix(s, suffix)]:
    [len(s) >= len(suffix) && s[len(s)-len(suffix):] == suffix]. *)
Definition HasSuffix (s suffix : string) : bool :=
  (String.length suffix <=? String.length s)%nat
  && String.eqb
       (String.substring (String.length s - String.length suffix)
                         (String.length suffix) s)
       suffix.

End strings.

(** ** net/url: query escaping and [url.Values]

    Go's standard library, which [client.Call] uses to build the query;
    written out here so that an address can be computed. The statements
    about the address hold whichever bytes [QueryEscape] escapes. *)

Module url.

Definition byte_in (lo hi : ascii) (c : ascii) : bool :=
  (nat_of_ascii lo <=? nat_of_ascii c)%nat
  && (nat_of_ascii c <=? nat_of_ascii hi)%nat.

(** [shouldEscape(c, encodeQueryComponent)]: the unreserved characters
    of RFC 3986 are kept, everything else is escaped. *)
Definition shouldEscape (c : ascii) : bool :=
  if byte_in "a" "z" c || byte_in "A" "Z" c || byte_in "0" "9" c then false
  else if Ascii.eqb c "-" || Ascii.eqb c "_" || Ascii.eqb c "."
          || Ascii.eqb c "~" then false
  else true.

Definition upperhex (n : nat) : ascii :=
  match String.get n "0123456789ABCDEF" with
  | Some c => c
  | None => "0"%char
  end.

(** [url.QueryEscape]: a space becomes [+], an escaped byte becomes
    [%XX]. *)
Fixpoint QueryEscape (s : string) : string :=
  match s with
  | EmptyString => EmptyString
  | String c r =>
      if Ascii.eqb c " " then String "+" (QueryEscape r)
      else if shouldEscape c then
        String "%" (String (upperhex (nat_of_ascii c / 16))
                      (String (upperhex (nat_of_ascii c mod 16))
                         (QueryEscape r)))
      else String c (QueryEscape r)
  end.

(** [type Values map[string][]string] *)
Abbreviation Values := (gmap string (list string)).

(** [func (v Values) Set(key, value string) { v[key] = []string{value} }] *)
Definition Set_ (key value : string) (v : Values) : Values :=
  <[key := [value]]> v.

(** One [key=value] pair as [Encode] writes it. *)
Definition pair_text (k x : string) : string :=
  QueryEscape k +:+ "=" +:+ QueryEscape x.

(** The body of [Encode]'s inner loop: an ampersand unless the buffer is
    still empty, then the escaped key, [=], the escaped value. *)
Definition write_pair (k : string) (buf x : string) : string :=
  (if (0 <? String.length buf)%nat then buf +:+ "&" else buf)
    +:+ pair_text k x.

(** The keys in the order [Encode] visits them: [slices.Sort(keys)]. *)
Definition sorted_keys (v : Values) : list string :=
  merge_sort String.le (elements (dom v)).

(** [func (v Values) Encode() string]: the pairs sorted by key. *)
Definition Encode (v : Values) : string :=
  fold_left
    (fun buf k => fold_left (write_pair k) (v !!! k) buf)
    (sorted_keys v) "".

End url.

(** ** The address a call goes to *)

(** [const suffix = ".json"] *)
Definition suffix : string := ".json".

(** The [url.Values] that [client.Call] builds (lines 200 to 211): the
    default auth token first, then every entry of [params] over it. *)
Definition client_Call_qs (auth : string) (params : gmap string string)
  : url.Values :=
  let qs : url.Values := ∅ in
  let qs := if (0 <? String.length auth)%nat then url.Set_ "auth" auth qs
            else qs in
  map_fold (fun k v qs => url.Set_ k v qs) qs params.

(** The value of [path] when [client.Call] hands it to [http.NewRequest]
    (lines 195 to 215). *)
Definition client_Call_path (path auth : string)
  (params : gmap string string) : string :=
  let path := if negb (strings.HasSuffix path "/") then path +:+ "/"
              else path in
  let path := path +:+ suffix in
  let qs := client_Call_qs auth params in
  if (0 <? size qs)%nat then path +:+ "?" +:+ url.Encode qs else path.

(** ** Vocabulary of the statements about the address *)

(** What one round of [Encode]'s writing loop does to a buffer. *)
Definition write_text (buf it : string) : string :=
  (if (0 <? String.length buf)%nat then buf +:+ "&" else buf) +:+ it.

(** The entries of a map as pairs, in the order of their keys. *)
Definition sorted_pairs (m : gmap string string) : list (string * string) :=
  (fun k => (k, default "" (m !! k)))
    <$> merge_sort String.le (elements (dom m)).

(** The default token as a one-entry map; no entry for an empty token. *)
Definition default_auth (auth : string) : gmap string string :=
  if (0 <? String.length auth)%nat then {[ "auth" := auth ]} else ∅.

(** A query as it follows the address: nothing for no pair, else a
    question mark and the escaped pairs joined by ampersands. *)
Definition query_text (pairs : list (string * string)) : string :=
  match pairs with
  | [] => ""
  | _ => "?" +:+ String.concat "&"
                   ((fun kv => url.pair_text kv.1 kv.2) <$> pairs)
  end.

(** ** Errors and the libraries the package calls *)

(** A Go [error] value. [errors_New] is [errors.New]; the other two stand
    for the errors that encoding/json and net/http report. [Error] is the
    method of the same name: the message. *)
Inductive error : Type :=
  | errors_New (text : string)
  | json_error (text : string)
  | http_error (text : string).

Definition Error (e : error) : string :=
  match e with
  | errors_New t | json_error t | http_error t => t
  end.

(** encoding/json, for a type [V] of non-nil Go values: an [interface{}]
    is an [option V], [None] being the nil interface.
    [json_Unmarshal data v] is [json.Unmarshal(data, &v)] for
    [v interface{}] and returns the new content of [v];
    [json_Unmarshal_map data] is the same call for a nil
    [map[string]string]. *)
Class Json (V : Type) : Type := {
  json_Marshal : option V -> error + list byte;
  json_Unmarshal : list byte -> option V -> error + option V;
  json_Unmarshal_map : list byte -> error + gmap string string
}.

(** [http.Response], as far as [client.Call] reads it. *)
Record Response (B : Type) : Type := mkResponse {
  StatusCode : Z;
  Body : B
}.
Arguments mkResponse {B}.
Arguments StatusCode {B}.
Arguments Body {B}.

(** net/http and io/ioutil over a world [W] (the network and whatever a
    test double keeps): building a request, [httpClient.Do], reading and
    closing a response body. *)
Class Http (W : Type) : Type := {
  Request : Type;
  ReadCloser : Type;
  http_NewRequest : string -> string -> list byte -> error + Request;
  Request_set_Close : Request -> bool -> Request;
  httpClient_Do : Request -> W -> (error + Response ReadCloser) * W;
  ioutil_ReadAll : ReadCloser -> W -> (list byte * option error) * W;
  Body_Close : ReadCloser -> W -> W
}.

(** ** The client *)

Section Firebase.

Context {V W : Type} {json : Json V} {http : Http W}.

(** [type Api interface { Call(method, path, auth string, body []byte,
    params map[string]string) ([]byte, error) }]. A transport acts on
    the world only; it holds no pointer into the heap of locations. *)
Record Api : Type := mkApi {
  Call : string -> string -> string -> list byte -> gmap string string ->
         W -> (list byte * option error) * W
}.

(** [type F struct]; a nil [api] or [value] is [None]. *)
Record F : Type := mkF {
  Url : string;
  Auth : string;
  api : option Api;
  value : option V
}.

(** [func (c *client) Call]; the calls to [log.Printf] are left out. *)
Definition client_Call (method path auth : string) (body : list byte)
  (params : gmap string string) (w : W) : (list byte * option error) * W :=
  let path := client_Call_path path auth params in
  match http_NewRequest method path body with
  | inl err => (([], Some err), w)
  | inr req =>
      let req := Request_set_Close req true in
      match httpClient_Do req w with
      | (inl err, w) => (([], Some err), w)
      | (inr res, w) =>
          (* [defer res.Body.Close()] runs on each return below *)
          match ioutil_ReadAll (Body res) w with
          | ((ret, Some err), w) => (([], Some err), Body_Close (Body res) w)
          | ((ret, None), w) =>
              if (400 <=? StatusCode res)%Z then
                let err := errors_New (string_of_list_byte ret) in
                (([], Some err), Body_Close (Body res) w)
              else ((ret, None), Body_Close (Body res) w)
          end
      end
  end.

(** [new(client)] as an [Api]. *)
Definition client : Api := mkApi client_Call.

(** *** Pointers, the heap and the monad of the methods *)

(** A [*F] is a heap address or nil. *)
Definition loc : Type := positive.
Definition ptr : Type := option loc.

(** One call made through the [Api] interface, as it was made. *)
Record invocation : Type := mkInvocation {
  inv_method : string;
  inv_path : string;
  inv_auth : string;
  inv_body : list byte;
  inv_params : gmap string string
}.

(** The machine state: the [F] values allocated so far, the world, and
    the calls issued so far (kept to count them; the code has no such
    log). *)
Record state : Type := mkState {
  heap : gmap loc F;
  world : W;
  calls : list invocation
}.

(** A method body: from a state to a result and a state, or [None] when
    the Go code panics (nil pointer or nil interface). *)
Definition M (A : Type) : Type := state -> option (A * state).

Definition M_ret {A} (a : A) : M A := fun s => Some (a, s).

Definition M_bind {A B} (c : M A) (k : A -> M B) : M B :=
  fun s => match c s with
           | Some (a, s') => k a s'
           | None => None
           end.

#[global] Instance M_mret : MRet M := @M_ret.
#[global] Instance M_mbind : MBind M := fun A B k c => M_bind c k.

(** [*f]: reading through a pointer. *)
Definition deref (f : ptr) : M F :=
  fun s => match f with
           | Some l => match heap s !! l with
                       | Some x => Some (x, s)
                       | None => None
                       end
           | None => None
           end.

(** [&F{...}]: a fresh cell. *)
Definition new_F (x : F) : M ptr :=
  fun s => let l := fresh (dom (heap s)) in
           Some (Some l, mkState (<[l := x]> (heap s)) (world s) (calls s)).

(** An assignment to fields of [*f]. *)
Definition assign (f : ptr) (g : F -> F) : M unit :=
  fun s => match f with
           | Some l => match heap s !! l with
                       | Some x =>
                           Some (tt, mkState (<[l := g x]> (heap s))
                                       (world s) (calls s))
                       | None => None
                       end
           | None => None
           end.

(** The state once a call has come back: the world it left, and the
    call added to those made. *)
Definition after_call (s : state) (w : W) (i : invocation) : state :=
  mkState (heap s) w (calls s ++ [i]).

(** [a.Call(...)] through the interface. *)
Definition api_Call (a : option Api) (method path auth : string)
  (body : list byte) (params : gmap string string)
  : M (list byte * option error) :=
  fun s => match a with
           | Some a =>
               let '(r, w) := Call a method path auth body params (world s) in
               Some (r, after_call s w
                          (mkInvocation method path auth body params))
           | None => None
           end.

(** *** The methods of [F] *)

(** [func (f *F) Init(root, auth string, api Api)] *)
Definition Init (f : ptr) (root auth : string) (api0 : option Api) : M unit :=
  let api0 := match api0 with None => Some client | Some a => Some a end in
  _ ← assign f (fun x => mkF (Url x) (Auth x) api0 (value x));
  _ ← assign f (fun x => mkF root (Auth x) (api x) (value x));
  assign f (fun x => mkF (Url x) auth (api x) (value x)).

(** [func (f *F) Child(path string, params map[string]string,
    v interface{}) *F] *)
Definition Child (f : ptr) (path : string) (params : gmap string string)
  (v : option V) : M ptr :=
  x ← deref f;
  let u := Url x +:+ "/" +:+ path in
  '(res, err) ← api_Call (api x) "GET" u (Auth x) [] params;
  match err with
  | Some _ => M_ret None
  | None =>
      match json_Unmarshal res v with
      | inl _ => M_ret None
      | inr v =>
          x ← deref f;
          new_F (mkF u (Auth x) (api x) v)
      end
  end.

(** [func (f *F) Value() interface{}]. The assignment [f = f.Child(...)]
    rebinds the method's own variable [f]. *)
Definition Value (f : ptr) : M (option V) :=
  x ← deref f;
  f ← match value x with
       | None => let v : option V := None in Child f "" ∅ v
       | Some _ => M_ret f
       end;
  match f with
  | None => M_ret None
  | Some _ => x ← deref f; M_ret (value x)
  end.

(** [func (f *F) Push(value interface{}, params map[string]string)],
    returning a [*F] and an [error]. *)
Definition Push (f : ptr) (value0 : option V) (params : gmap string string)
  : M (ptr * option error) :=
  match json_Marshal value0 with
  | inl err => M_ret (None, Some err)
  | inr body =>
      x ← deref f;
      '(res, err) ← api_Call (api x) "POST" (Url x) (Auth x) body params;
      match err with
      | Some err => M_ret (None, Some err)
      | None =>
          match json_Unmarshal_map res with
          | inl err => M_ret (None, Some err)
          | inr r =>
              x ← deref f;
              ret ← new_F (mkF (Url x +:+ "/" +:+ default "" (r !! "name"))
                              (Auth x) (api x) value0);
              M_ret (ret, None)
          end
      end
  end.

(** [func (f *F) Set(path string, value interface{},
    params map[string]string)], returning a [*F] and an [error]. *)
Definition Set_ (f : ptr) (path : string) (value0 : option V)
  (params : gmap string string) : M (ptr * option error) :=
  x ← deref f;
  let u := Url x +:+ "/" +:+ path in
  match json_Marshal value0 with
  | inl err => M_ret (None, Some err)
  | inr body =>
      x ← deref f;
      '(res, err) ← api_Call (api x) "PUT" u (Auth x) body params;
      match err with
      | Some err => M_ret (None, Some err)
      | None =>
          x ← deref f;
          ret ← new_F (mkF u (Auth x) (api x) None);
          if (0 <? length res)%nat then
            let r : option V := None in
            match json_Unmarshal res r with
            | inl err => M_ret (None, Some err)
            | inr r =>
                _ ← assign ret (fun y => mkF (Url y) (Auth y) (api y) r);
                M_ret (ret, None)
            end
          else M_ret (ret, None)
      end
  end.

(** [func (f *F) Update(path string, value interface{},
    params map[string]string) error] *)
Definition Update (f : ptr) (path : string) (value0 : option V)
  (params : gmap string string) : M (option error) :=
  match json_Marshal value0 with
  | inl err => M_ret (Some err)
  | inr body =>
      x ← deref f;
      '(_, err) ← api_Call (api x) "PATCH" (Url x +:+ "/" +:+ path)
                     (Auth x) body params;
      _ ← (if (String.length path =? 0)%nat
            then assign f (fun x => mkF (Url x) (Auth x) (api x) None)
            else M_ret tt);
      M_ret err
  end.

(** [func (f *F) Remove(path string, params map[string]string) error] *)
Definition Remove (f : ptr) (path : string) (params : gmap string string)
  : M (option error) :=
  x ← deref f;
  '(_, err) ← api_Call (api x) "DELETE" (Url x +:+ "/" +:+ path)
                 (Auth x) [] params;
  M_ret err.

(** *** Vocabulary of the statements about the methods *)

(** What a location returned by a method shares with the receiver [x]:
    the token and the transport. *)
Definition carries (x : F) (s' : state) (r : ptr) : Prop :=
  match r with
  | Some l' => ∃ y, heap s' !! l' = Some y ∧ Auth y = Auth x ∧ api y = api x
  | None => True
  end.

(** What a read that came back as [(res, err)] makes of a nil
    interface: the decoded document, or nil when the call or the
    decoding failed. *)
Definition read_result (res : list byte) (err : option error) : option V :=
  match err, json_Unmarshal res None with
  | None, inr v => v
  | _, _ => None
  end.

(** A method run from [s] to [s'] made no call, or one call with the
    given HTTP method. *)
Definition issued (method : string) (s s' : state) : Prop :=
  calls s' = calls s
  ∨ ∃ i, calls s' = (calls s ++ [i])%list ∧ inv_method i = method.

(** Every location of [s] is in [s'] with the same address, token and
    transport; its value is the same too, except that the value of the
    location at [cleared] may have become nil. *)
Definition kept_but_value (cleared : ptr) (s s' : state) : Prop :=
  ∀ l y, heap s !! l = Some y →
    ∃ y', heap s' !! l = Some y'
          ∧ Url y' = Url y ∧ Auth y' = Auth y ∧ api y' = api y
          ∧ (value y' = value y ∨ cleared = Some l ∧ value y' = None).

(** A pointer on which no call can be made: nil, or a location whose
    transport is nil (an [F] that [Init] has not seen). *)
Definition unusable (s : state) (f : ptr) : Prop :=
  f = None ∨ ∃ l x, f = Some l ∧ heap s !! l = Some x ∧ api x = None.

End Firebase.

Arguments Api W : clear implicits.
Arguments F V W : clear implicits.
Arguments state V W : clear implicits.
Arguments invocation : clear implicits.

(** ** A test double: scalar JSON documents over a scripted HTTP server *)

Module Double.

(** The documents [true], [false] and [null], and two push replies. *)
Definition quote : string := String (ascii_of_nat 34) EmptyString.
Definition bytes (s : string) : list byte := list_byte_of_string s.
Definition name_reply (key : string) : list byte :=
  bytes ("{" +:+ quote +:+ "name" +:+ quote +:+ ":"
             +:+ quote +:+ key +:+ quote +:+ "}").

Definition bytes_eqb (a b : list byte) : bool :=
  String.eqb (string_of_list_byte a) (string_of_list_byte b).

Definition syntax_error : error := json_error "invalid character".

(** encoding/json on booleans: [null] decodes to the nil interface. *)
#[global] Instance json_bool : Json bool := {|
  json_Marshal v :=
    inr (bytes match v with
               | None => "null"
               | Some true => "true"
               | Some false => "false"
               end);
  json_Unmarshal data _ :=
    if bytes_eqb data (bytes "null") then inr None
    else if bytes_eqb data (bytes "true") then inr (Some true)
    else if bytes_eqb data (bytes "false") then inr (Some false)
    else inl syntax_error;
  json_Unmarshal_map data :=
    if bytes_eqb data (bytes "null") then inr ∅
    else if bytes_eqb data (bytes "{}") then inr ∅
    else if bytes_eqb data (name_reply "-K1") then inr {[ "name" := "-K1" ]}
    else inl syntax_error
|}.

(** The server: the responses (status code, body) it will give, in
    order; once they are used up the connection fails. *)
Definition server : Type := list (Z * list byte).

Definition refused : error := http_error "connection refused".

#[global] Instance http_scripted : Http server := {|
  Request := string * string * list byte * bool;
  ReadCloser := list byte;
  http_NewRequest method url body := inr (method, url, body, false);
  Request_set_Close req b := (req.1.1.1, req.1.1.2, req.1.2, b);
  httpClient_Do req w :=
    match w with
    | [] => (inl refused, [])
    | (status, body) :: w => (inr (mkResponse status body), w)
    end;
  ioutil_ReadAll body w := ((body, None), w);
  Body_Close body w := w
|}.

(** A location at heap address 1 that uses the HTTP client, and the
    state in which it is the only location. *)
Definition root (v : option bool) : F bool server :=
  mkF "https://x.firebaseio.com" "tok" (Some client) v.

Definition start (v : option bool) (w : server) : state bool server :=
  mkState {[ 1%positive := root v ]} w [].

(** A transport that fails every call, with the state it is in. *)
Definition failing : Api server :=
  mkApi (fun _ _ _ _ _ w => (([], Some refused), w)).

Definition start_failing (v : option bool) : state bool server :=
  mkState {[ 1%positive := mkF "https://x.firebaseio.com" "tok"
                             (Some failing) v ]} [] [].

End Double.

(** * Properties *)

Example client_Call_path_ex1 :
  client_Call_path "https://x.firebaseio.com/users" "tok"
    {[ "shallow" := "true" ]}
  = "https://x.firebaseio.com/users/.json?auth=tok&shallow=true".
Proof. vm_compute. reflexivity. Qed.

Example client_Call_path_ex2 :
  client_Call_path "https://x.firebaseio.com/" "tok"
    {[ "auth" := "a b/c"; "print" := "pretty" ]}
  = "https://x.firebaseio.com/.json?auth=a+b%2Fc&print=pretty".
Proof. vm_compute. reflexivity. Qed.

Example client_Call_path_ex3 :
  client_Call_path "root" "" ∅ = "root/.json".
Proof. vm_compute. reflexivity. Qed.

Example Init_installs_client :
  (fun r => heap (snd r) !! 1%positive)
    <$> Init (Some 1%positive) "https://x.firebaseio.com" "tok" None
          (mkState {[ 1%positive := mkF "" "" None None ]}
             ([] : Double.server) [])
  = Some (Some (Double.root None)).
Proof. vm_compute. reflexivity. Qed.

Example Value_fetches :
  fst <$> Value (Some 1%positive)
            (Double.start None [(200%Z, Double.bytes "true")])
  = Some (Some true).
Proof. vm_compute. reflexivity. Qed.

Example Push_ex :
  (fun r => (fst (fst r), heap (snd r) !! 2%positive))
    <$> Push (Some 1%positive) (Some true) ∅
          (Double.start None [(200%Z, Double.name_reply "-K1")])
  = Some (Some 2%positive,
          Some (mkF "https://x.firebaseio.com/-K1" "tok" (Some client)
                  (Some true))).
Proof. vm_compute. reflexivity. Qed.

(** ** Strings *)

Section string_facts.

Lemma substring_all (t : string) :
  String.substring 0 (String.length t) t = t.
Proof. induction t as [|c t IH]; simpl; [done | by rewrite IH]. Qed.

Lemma substring_skip (s t : string) :
  String.substring (String.length s) (String.length t) (s +:+ t) = t.
Proof. induction s as [|c s IH]; simpl; [apply substring_all | exact IH]. Qed.

Lemma length_append (s t : string) :
  String.length (s +:+ t) = (String.length s + String.length t)%nat.
Proof. induction s as [|c s IH]; simpl; [done | by rewrite IH]. Qed.

(** A string that was just extended by [t] has the suffix [t]. *)
Lemma HasSuffix_append (s t : string) :
  strings.HasSuffix (s +:+ t) t = true.
Proof.
  unfold strings.HasSuffix. rewrite length_append.
  replace (String.length s + String.length t - String.length t)%nat
    with (String.length s) by lia.
  rewrite substring_skip, String.eqb_refl, andb_true_r.
  apply Nat.leb_le. lia.
Qed.

Lemma append_assoc (s t u : string) : (s +:+ t) +:+ u = s +:+ (t +:+ u).
Proof.
  induction s as [|c s IH]; [done|].
  change (String c ((s +:+ t) +:+ u) = String c (s +:+ (t +:+ u))).
  by rewrite IH.
Qed.

Lemma append_empty_r (s : string) : s +:+ "" = s.
Proof.
  induction s as [|c s IH]; [done|].
  change (String c (s +:+ "") = String c s). by rewrite IH.
Qed.

End string_facts.

(** ** The query string *)

Section query.

(** The text of a pair is never empty: it holds the [=]. *)
Lemma pair_text_nonempty (k x : string) : url.pair_text k x ≠ "".
Proof.
  unfold url.pair_text. destruct (url.QueryEscape k); simpl; discriminate.
Qed.

Lemma fold_write_text (items : list string) (buf : string) :
  Forall (fun it => it ≠ "") items →
  fold_left write_text items buf
  = match items with
    | [] => buf
    | _ => (if (0 <? String.length buf)%nat then buf +:+ "&" else buf)
             +:+ String.concat "&" items
    end.
Proof.
  revert buf. induction items as [|it items IH]; intros buf Hne; [done|].
  apply Forall_cons in Hne as [Hit Hne]. simpl fold_left.
  rewrite IH by done. destruct items as [|it' items]; [done|].
  assert ((0 <? String.length (write_text buf it))%nat = true) as ->.
  { apply Nat.ltb_lt. unfold write_text. rewrite length_append.
    destruct it; [done | simpl; lia]. }
  change (String.concat "&" (it :: it' :: items))
    with (it +:+ "&" +:+ String.concat "&" (it' :: items)).
  unfold write_text. by rewrite !append_assoc.
Qed.

Lemma sorted_keys_singletons (m : gmap string string) :
  url.sorted_keys ((fun v => [v]) <$> m)
  = merge_sort String.le (elements (dom m)).
Proof. unfold url.sorted_keys. by rewrite dom_fmap_L. Qed.

Lemma elem_of_sorted_keys (m : gmap string string) (k : string) :
  k ∈ merge_sort String.le (elements (dom m)) ↔ is_Some (m !! k).
Proof.
  rewrite merge_sort_Permutation, elem_of_elements. apply elem_of_dom.
Qed.

Lemma elem_of_sorted_pairs (m : gmap string string) (k v : string) :
  (k, v) ∈ sorted_pairs m ↔ m !! k = Some v.
Proof.
  unfold sorted_pairs. rewrite list_elem_of_fmap. split.
  - intros (k' & Heq & [v' Hv]%elem_of_sorted_keys).
    rewrite Hv in Heq. by simplify_eq.
  - intros Hv. exists k. rewrite Hv. split; [done|].
    apply elem_of_sorted_keys. eauto.
Qed.

Lemma sorted_pairs_keys (m : gmap string string) :
  (sorted_pairs m).*1 = merge_sort String.le (elements (dom m)).
Proof.
  unfold sorted_pairs. rewrite <- list_fmap_compose.
  rewrite <- (list_fmap_id (merge_sort _ _)) at 2. done.
Qed.

Lemma sorted_pairs_NoDup (m : gmap string string) :
  NoDup (sorted_pairs m).*1.
Proof.
  rewrite sorted_pairs_keys, merge_sort_Permutation. apply NoDup_elements.
Qed.

Lemma sorted_pairs_Sorted (m : gmap string string) :
  Sorted String.le (sorted_pairs m).*1.
Proof. rewrite sorted_pairs_keys. apply Sorted_merge_sort, _. Qed.

Lemma sorted_pairs_length (m : gmap string string) :
  length (sorted_pairs m) = size m.
Proof.
  unfold sorted_pairs.
  rewrite length_fmap, merge_sort_Permutation, <- size_dom. done.
Qed.

(** [Encode] on single values: the pair texts joined by ampersands. *)
Lemma Encode_singletons (m : gmap string string) :
  url.Encode ((fun v => [v]) <$> m)
  = String.concat "&"
      ((fun kv => url.pair_text kv.1 kv.2) <$> sorted_pairs m).
Proof.
  unfold url.Encode. rewrite sorted_keys_singletons.
  assert (∀ ks buf,
    Forall (fun k => is_Some (m !! k)) ks →
    fold_left (fun buf k =>
                 fold_left (url.write_pair k)
                   (((fun v => [v]) <$> m) !!! k) buf) ks buf
    = fold_left write_text
        ((fun k => url.pair_text k (default "" (m !! k))) <$> ks) buf) as Hfold.
  { induction ks as [|k ks IH]; intros buf Hks; [done|].
    apply Forall_cons in Hks as [[v Hv] Hks]. simpl.
    rewrite <- IH by done. f_equal.
    rewrite lookup_total_alt, lookup_fmap, Hv. done. }
  rewrite Hfold.
  2:{ apply Forall_forall. intros k. apply elem_of_sorted_keys. }
  rewrite fold_write_text.
  2:{ apply Forall_forall. intros it (k & -> & _)%list_elem_of_fmap.
      apply pair_text_nonempty. }
  unfold sorted_pairs. rewrite <- list_fmap_compose.
  destruct (merge_sort String.le (elements (dom m))); done.
Qed.

(** The loop over [params] leaves every parameter in [qs], over the
    default token. *)
Lemma client_Call_qs_union (auth : string) (params : gmap string string) :
  client_Call_qs auth params
  = (fun v => [v])
      <$> (params ∪ (if (0 <? String.length auth)%nat
                      then {[ "auth" := auth ]} else ∅)).
Proof.
  unfold client_Call_qs.
  set (d := if (0 <? String.length auth)%nat
            then {[ "auth" := auth ]} else ∅ : gmap string string).
  assert ((if (0 <? String.length auth)%nat
           then url.Set_ "auth" auth ∅ else ∅)
          = (fun v => [v]) <$> d) as ->.
  { unfold d, url.Set_. destruct (0 <? String.length auth)%nat.
    - by rewrite map_fmap_singleton, insert_empty.
    - by rewrite fmap_empty. }
  apply (map_fold_weak_ind
           (fun r m => r = (fun v => [v]) <$> (m ∪ d))).
  - by rewrite (left_id_L ∅ (∪)).
  - intros k v m r _ ->. unfold url.Set_.
    by rewrite <- insert_union_l, fmap_insert.
Qed.

End query.

(** ** Running the methods *)

Section running.

Context {V W : Type} {json : Json V} {http : Http W}.

Implicit Types (s : state V W) (l : loc) (x : F V W) (a : Api W).

Lemma run_bind {A B} (c : M A) (k : A → M B) s :
  (c ≫= k) s = match c s with Some (r, s') => k r s' | None => None end.
Proof. reflexivity. Qed.

Lemma run_ret {A} (r : A) s : (M_ret r : M A) s = Some (r, s).
Proof. reflexivity. Qed.

Lemma run_deref s l x : heap s !! l = Some x → deref (Some l) s = Some (x, s).
Proof. intros Hl. unfold deref. by rewrite Hl. Qed.

Lemma run_api_Call s a method path auth body params r w :
  Call a method path auth body params (world s) = (r, w) →
  api_Call (Some a) method path auth body params s
  = Some (r, after_call s w (mkInvocation method path auth body params)).
Proof. intros Hc. unfold api_Call. by rewrite Hc. Qed.

Lemma run_new_F s x :
  new_F x s = Some (Some (fresh (dom (heap s))),
                    mkState (<[fresh (dom (heap s)) := x]> (heap s))
                      (world s) (calls s)).
Proof. reflexivity. Qed.

Lemma run_assign s l x (g : F V W → F V W) :
  heap s !! l = Some x →
  assign (Some l) g s
  = Some (tt, mkState (<[l := g x]> (heap s)) (world s) (calls s)).
Proof. intros Hl. unfold assign. by rewrite Hl. Qed.

(** A fresh address is not the receiver's. *)
Lemma fresh_not_allocated s l x :
  heap s !! l = Some x → fresh (dom (heap s)) ≠ l.
Proof.
  intros Hl Heq. apply (is_fresh (dom (heap s))).
  rewrite Heq. apply elem_of_dom. eauto.
Qed.

Lemma fresh_lookup_None s : heap s !! fresh (dom (heap s)) = None.
Proof. apply not_elem_of_dom, is_fresh. Qed.

(** [Child], run from a state in which the receiver is allocated. *)
Lemma Child_run s l x a path params v res err w :
  heap s !! l = Some x → api x = Some a →
  Call a "GET" (Url x +:+ "/" +:+ path) (Auth x) [] params (world s)
    = ((res, err), w) →
  let u := Url x +:+ "/" +:+ path in
  let s1 := after_call s w (mkInvocation "GET" u (Auth x) [] params) in
  Child (Some l) path params v s
  = match err, json_Unmarshal res v with
    | None, inr v' =>
        Some (Some (fresh (dom (heap s))),
              mkState (<[fresh (dom (heap s)) := mkF u (Auth x) (api x) v']>
                         (heap s)) w (calls s1))
    | _, _ => Some (None, s1)
    end.
Proof.
  intros Hl Ha Hc u s1. unfold Child.
  rewrite run_bind, (run_deref _ _ _ Hl), run_bind, Ha.
  rewrite (run_api_Call _ _ _ _ _ _ _ _ _ Hc). fold u s1.
  destruct err as [e|]; [done|].
  destruct (json_Unmarshal res v) as [e|v']; [done|].
  rewrite run_bind, (run_deref s1 l x) by done.
  rewrite run_new_F, Ha. done.
Qed.

(** [Push], likewise. *)
Lemma Push_run s l x a v params body res err w :
  heap s !! l = Some x → api x = Some a →
  json_Marshal v = inr body →
  Call a "POST" (Url x) (Auth x) body params (world s) = ((res, err), w) →
  let s1 := after_call s w
              (mkInvocation "POST" (Url x) (Auth x) body params) in
  Push (Some l) v params s
  = match err, json_Unmarshal_map res with
    | Some e, _ => Some ((None, Some e), s1)
    | None, inl e => Some ((None, Some e), s1)
    | None, inr r =>
        Some ((Some (fresh (dom (heap s))), None),
              mkState (<[fresh (dom (heap s)) :=
                           mkF (Url x +:+ "/" +:+ default "" (r !! "name"))
                             (Auth x) (api x) v]> (heap s)) w (calls s1))
    end.
Proof.
  intros Hl Ha Hm Hc s1. unfold Push. rewrite Hm.
  rewrite run_bind, (run_deref _ _ _ Hl), run_bind, Ha.
  rewrite (run_api_Call _ _ _ _ _ _ _ _ _ Hc). fold s1.
  destruct err as [e|]; [done|].
  destruct (json_Unmarshal_map res) as [e|r]; [done|].
  rewrite run_bind, (run_deref s1 l x) by done.
  rewrite run_bind, run_new_F, Ha. done.
Qed.

Lemma Push_run_marshal_error s v params e :
  json_Marshal v = inl e →
  ∀ f, Push f v params s = Some ((None, Some e), s).
Proof. intros Hm f. unfold Push. by rewrite Hm. Qed.

(** [Set], likewise. *)
Lemma Set_run s l x a path v params body res err w :
  heap s !! l = Some x → api x = Some a →
  json_Marshal v = inr body →
  Call a "PUT" (Url x +:+ "/" +:+ path) (Auth x) body params (world s)
    = ((res, err), w) →
  let u := Url x +:+ "/" +:+ path in
  let s1 := after_call s w (mkInvocation "PUT" u (Auth x) body params) in
  let l' := fresh (dom (heap s)) in
  let made r := mkState (<[l' := mkF u (Auth x) (api x) r]> (heap s))
                  w (calls s1) in
  Set_ (Some l) path v params s
  = match err with
    | Some e => Some ((None, Some e), s1)
    | None =>
        if (0 <? length res)%nat then
          match json_Unmarshal res None with
          | inl e => Some ((None, Some e), made None)
          | inr r => Some ((Some l', None), made r)
          end
        else Some ((Some l', None), made None)
    end.
Proof.
  intros Hl Ha Hm Hc u s1 l' made. subst made. cbv beta. unfold Set_.
  rewrite run_bind, (run_deref _ _ _ Hl), Hm.
  rewrite run_bind, (run_deref _ _ _ Hl), run_bind, Ha.
  rewrite (run_api_Call _ _ _ _ _ _ _ _ _ Hc). fold u s1.
  destruct err as [e|]; [done|].
  rewrite run_bind, (run_deref s1 l x) by done.
  rewrite run_bind, run_new_F, Ha. fold l'.
  destruct (0 <? length res)%nat; [|reflexivity].
  destruct (json_Unmarshal res None) as [e|r]; [reflexivity|].
  rewrite run_bind.
  erewrite run_assign by (simpl; apply lookup_insert_eq).
  simpl. by rewrite insert_insert_eq.
Qed.

Lemma Set_run_marshal_error s l x path v params e :
  heap s !! l = Some x → json_Marshal v = inl e →
  Set_ (Some l) path v params s = Some ((None, Some e), s).
Proof.
  intros Hl Hm. unfold Set_.
  by rewrite run_bind, (run_deref _ _ _ Hl), Hm.
Qed.

(** [Update], likewise. *)
Lemma Update_run s l x a path v params body res err w :
  heap s !! l = Some x → api x = Some a →
  json_Marshal v = inr body →
  Call a "PATCH" (Url x +:+ "/" +:+ path) (Auth x) body params (world s)
    = ((res, err), w) →
  let s1 := after_call s w
              (mkInvocation "PATCH" (Url x +:+ "/" +:+ path) (Auth x)
                 body params) in
  Update (Some l) path v params s
  = Some (err,
          if (String.length path =? 0)%nat
          then mkState (<[l := mkF (Url x) (Auth x) (api x) None]> (heap s))
                 w (calls s1)
          else s1).
Proof.
  intros Hl Ha Hm Hc s1. unfold Update. rewrite Hm.
  rewrite run_bind, (run_deref _ _ _ Hl), run_bind, Ha.
  rewrite (run_api_Call _ _ _ _ _ _ _ _ _ Hc). fold s1.
  rewrite run_bind.
  destruct (String.length path =? 0)%nat; [|done].
  rewrite (run_assign s1 l x) by done. cbv beta. rewrite Ha. reflexivity.
Qed.

(** [Remove], likewise. *)
Lemma Remove_run s l x a path params res err w :
  heap s !! l = Some x → api x = Some a →
  Call a "DELETE" (Url x +:+ "/" +:+ path) (Auth x) [] params (world s)
    = ((res, err), w) →
  Remove (Some l) path params s
  = Some (err, after_call s w
                 (mkInvocation "DELETE" (Url x +:+ "/" +:+ path) (Auth x)
                    [] params)).
Proof.
  intros Hl Ha Hc. unfold Remove.
  rewrite run_bind, (run_deref _ _ _ Hl), run_bind, Ha.
  by rewrite (run_api_Call _ _ _ _ _ _ _ _ _ Hc).
Qed.

End running.

(** C1. [client.Call] sends its request to the address normalised to end
    in a slash, then the suffix [.json], then the query: the address part
    ends with the suffix, the query is a question mark and the escaped
    [key=value] pairs joined by ampersands (nothing when there is no
    pair), the keys are distinct, every entry of [params] is among the
    pairs, an ["auth"] entry of [params] is the only ["auth"] pair, and
    without one a non-empty default token is the ["auth"] pair. *)
Theorem client_Call_address (path auth : string)
  (params : gmap string string) :
  let head := if strings.HasSuffix path "/" then path else path +:+ "/" in
  let pairs := sorted_pairs (params ∪ default_auth auth) in
  client_Call_path path auth params = head +:+ suffix +:+ query_text pairs
  ∧ strings.HasSuffix head "/" = true
  ∧ strings.HasSuffix (head +:+ suffix) suffix = true
  ∧ NoDup pairs.*1
  ∧ (∀ k v, params !! k = Some v → (k, v) ∈ pairs)
  ∧ (∀ v x, params !! "auth" = Some v → ("auth", x) ∈ pairs → x = v)
  ∧ (params !! "auth" = None → auth ≠ "" → ("auth", auth) ∈ pairs).
Proof.
  intros head pairs. repeat split.
  - unfold client_Call_path.
    rewrite client_Call_qs_union, map_size_fmap, Encode_singletons.
    fold (default_auth auth). fold pairs.
    replace (if negb (strings.HasSuffix path "/") then path +:+ "/" else path)
      with head by (unfold head; by destruct (strings.HasSuffix path "/")).
    pose proof (sorted_pairs_length (params ∪ default_auth auth)) as Hlen.
    fold pairs in Hlen. rewrite <- Hlen. unfold query_text.
    destruct pairs as [|p pairs'] eqn:Hp; simpl.
    + by rewrite append_empty_r.
    + by rewrite !append_assoc.
  - unfold head. destruct (strings.HasSuffix path "/") eqn:Hs; [done|].
    apply HasSuffix_append.
  - apply HasSuffix_append.
  - apply sorted_pairs_NoDup.
  - intros k v Hk. apply elem_of_sorted_pairs.
    by apply lookup_union_Some_l.
  - intros v x Hv Hx. apply elem_of_sorted_pairs in Hx.
    rewrite (lookup_union_Some_l _ _ _ _ Hv) in Hx. congruence.
  - intros Hnone Hauth. apply elem_of_sorted_pairs.
    rewrite lookup_union_r by done. unfold default_auth.
    destruct auth; [done|]. simpl. by rewrite lookup_singleton_eq.
Qed.

(** ** The HTTP transport *)

Section transport.

Context {W : Type} {http : Http W}.

(** [client.Call] once the request is built, sent and its response
    read. *)
Lemma client_Call_run method path auth body params (w w1 w2 : W)
    req res ret :
  http_NewRequest method (client_Call_path path auth params) body = inr req →
  httpClient_Do (Request_set_Close req true) w = (inr res, w1) →
  ioutil_ReadAll (Body res) w1 = ((ret, None), w2) →
  client_Call method path auth body params w
  = (if (400 <=? StatusCode res)%Z
     then ([], Some (errors_New (string_of_list_byte ret)))
     else (ret, None),
     Body_Close (Body res) w2).
Proof.
  intros Hreq Hdo Hread. unfold client_Call.
  rewrite Hreq, Hdo, Hread. by destruct (400 <=? StatusCode res)%Z.
Qed.

End transport.

(** C7. When [client.Call] has received a response and read its body, a
    status code of 400 or more gives no bytes and an error whose message
    is the body, byte for byte; a status code below 400 gives the body and
    no error. *)
Theorem client_Call_status {W : Type} {http : Http W}
    method path auth body params (w w1 w2 : W) req res ret :
  http_NewRequest method (client_Call_path path auth params) body = inr req →
  httpClient_Do (Request_set_Close req true) w = (inr res, w1) →
  ioutil_ReadAll (Body res) w1 = ((ret, None), w2) →
  ((400 ≤ StatusCode res)%Z →
     ∃ e, client_Call method path auth body params w
          = (([], Some e), Body_Close (Body res) w2)
          ∧ e = errors_New (string_of_list_byte ret)
          ∧ list_byte_of_string (Error e) = ret)
  ∧ ((StatusCode res < 400)%Z →
       client_Call method path auth body params w
       = ((ret, None), Body_Close (Body res) w2)).
Proof.
  intros Hreq Hdo Hread.
  rewrite (client_Call_run _ _ _ _ _ _ _ _ _ _ _ Hreq Hdo Hread).
  split; intros Hcode.
  - exists (errors_New (string_of_list_byte ret)).
    apply Z.leb_le in Hcode. rewrite Hcode. repeat split.
    apply list_byte_of_string_of_list_byte.
  - apply Z.leb_gt in Hcode. by rewrite Hcode.
Qed.

(** ** The methods of a location *)

(** A run that ended: name the result and the state it ended in. *)
Ltac name_result :=
  repeat lazymatch goal with |- ex _ => eexists end;
  split; [reflexivity|]; simpl.

(** ... and nothing was allocated. *)
Ltac returned := name_result; done.

(** ... and a location was allocated at a fresh address: the receiver's
    cell is another one. *)
Ltac kept_and_made :=
  name_result;
  split; [by rewrite lookup_insert_ne | eexists; by rewrite lookup_insert_eq].

Section methods.

Context {V W : Type} {json : Json V} {http : Http W}.

Implicit Types (s : state V W) (l : loc) (x : F V W) (a : Api W).

(** C8. [Remove] makes one call, a DELETE at [Url + "/" + path] with the
    receiver's token, no body and the given parameters; it returns what
    the transport returned as its error, nil included, and allocates
    nothing. *)
Theorem Remove_spec s l x a path params res err w :
  heap s !! l = Some x → api x = Some a →
  Call a "DELETE" (Url x +:+ "/" +:+ path) (Auth x) [] params (world s)
    = ((res, err), w) →
  ∃ s', Remove (Some l) path params s = Some (err, s')
        ∧ calls s' = (calls s ++ [mkInvocation "DELETE"
                                   (Url x +:+ "/" +:+ path) (Auth x)
                                   [] params])%list
        ∧ heap s' = heap s
        ∧ world s' = w.
Proof.
  intros Hl Ha Hc. rewrite (Remove_run _ _ _ _ _ _ _ _ _ Hl Ha Hc).
  eexists. split; [reflexivity|]. done.
Qed.

(** C4. [Child] returns nil when the transport returns an error and when
    the response does not decode; in both cases nothing but the call
    itself is left behind, so the two cannot be told apart. So it does
    through the HTTP client when the server answers with status 404: the
    error made of the body is dropped. *)
Theorem Child_nil_on_failure s l x a path params v :
  heap s !! l = Some x → api x = Some a →
  let u := Url x +:+ "/" +:+ path in
  let called w := after_call s w (mkInvocation "GET" u (Auth x) [] params) in
  (∀ res err w,
     Call a "GET" u (Auth x) [] params (world s) = ((res, err), w) →
     is_Some err ∨ (∃ e, json_Unmarshal res v = inl e) →
     Child (Some l) path params v s = Some (None, called w))
  ∧ (a = client →
     ∀ req res ret w1 w2,
       http_NewRequest "GET" (client_Call_path u (Auth x) params) []
         = inr req →
       httpClient_Do (Request_set_Close req true) (world s) = (inr res, w1) →
       ioutil_ReadAll (Body res) w1 = ((ret, None), w2) →
       StatusCode res = 404%Z →
       Child (Some l) path params v s
       = Some (None, called (Body_Close (Body res) w2))).
Proof.
  intros Hl Ha u called. split.
  - intros res err w Hc Hfail.
    rewrite (Child_run _ _ _ _ _ _ _ _ _ _ Hl Ha Hc).
    destruct Hfail as [[e ->]|[e ->]]; [done|]. by destruct err.
  - intros -> req res ret w1 w2 Hreq Hdo Hread Hcode.
    pose proof (client_Call_run _ _ _ _ _ _ _ _ _ _ _ Hreq Hdo Hread) as Hc.
    rewrite Hcode in Hc. simpl in Hc.
    by rewrite (Child_run _ _ _ _ _ _ _ _ _ _ Hl Ha Hc).
Qed.

(** C5. [Push] ends in one of two ways. With a location and no error:
    the value was serialised, one POST went to [Url] with it, the reply
    decoded to an object, and the location is a new one at
    [Url + "/" +] the object's ["name"], holding the pushed value. With
    an error and no location: it is the error of the serialisation, of
    the transport or of the decoding, and nothing was allocated. *)
Theorem Push_spec s l x a v params :
  heap s !! l = Some x → api x = Some a →
  ∃ r s', Push (Some l) v params s = Some (r, s') ∧
    match r with
    | (Some l', None) =>
        ∃ body res rep,
          json_Marshal v = inr body
          ∧ Call a "POST" (Url x) (Auth x) body params (world s)
            = ((res, None), world s')
          ∧ json_Unmarshal_map res = inr rep
          ∧ calls s' = (calls s ++ [mkInvocation "POST" (Url x) (Auth x)
                                     body params])%list
          ∧ heap s !! l' = None
          ∧ heap s'
            = <[l' := mkF (Url x +:+ "/" +:+ default "" (rep !! "name"))
                        (Auth x) (api x) v]> (heap s)
    | (None, Some e) =>
        heap s' = heap s
        ∧ (json_Marshal v = inl e ∧ s' = s
           ∨ ∃ body res err w,
               json_Marshal v = inr body
               ∧ Call a "POST" (Url x) (Auth x) body params (world s)
                 = ((res, err), w)
               ∧ s' = after_call s w (mkInvocation "POST" (Url x) (Auth x)
                                        body params)
               ∧ (err = Some e
                  ∨ err = None ∧ json_Unmarshal_map res = inl e))
    | _ => False
    end.
Proof.
  intros Hl Ha. destruct (json_Marshal v) as [e|body] eqn:Hm.
  { rewrite (Push_run_marshal_error _ _ _ _ Hm).
    do 2 eexists. split; [reflexivity|]. simpl. eauto. }
  destruct (Call a "POST" (Url x) (Auth x) body params (world s))
    as [[res err] w] eqn:Hc.
  rewrite (Push_run _ _ _ _ _ _ _ _ _ _ Hl Ha Hm Hc).
  destruct err as [e|].
  { do 2 eexists. split; [reflexivity|]. simpl. split; [done|].
    right. exists body, res, (Some e), w. eauto. }
  destruct (json_Unmarshal_map res) as [e|rep] eqn:Hu.
  { do 2 eexists. split; [reflexivity|]. simpl. split; [done|].
    right. exists body, res, None, w. eauto 10. }
  do 2 eexists. split; [reflexivity|]. simpl.
  exists body, res, rep. repeat split; try done.
  apply fresh_lookup_None.
Qed.

(** C10. When the reply to a [Push] decodes to an object without a
    ["name"] entry, [Push] reports no error and returns a new location
    at [Url + "/"]: the key appended is empty. *)
Theorem Push_without_name s l x a v params body res w rep :
  heap s !! l = Some x → api x = Some a →
  json_Marshal v = inr body →
  Call a "POST" (Url x) (Auth x) body params (world s) = ((res, None), w) →
  json_Unmarshal_map res = inr rep →
  rep !! "name" = None →
  ∃ l' s', Push (Some l) v params s = Some ((Some l', None), s')
           ∧ heap s' !! l'
             = Some (mkF (Url x +:+ "/") (Auth x) (api x) v).
Proof.
  intros Hl Ha Hm Hc Hu Hname.
  rewrite (Push_run _ _ _ _ _ _ _ _ _ _ Hl Ha Hm Hc), Hu, Hname.
  do 2 eexists. split; [reflexivity|]. simpl.
  by rewrite lookup_insert_eq, append_empty_r.
Qed.

(** C6. [Set] ends in one of two ways. With a location and no error: the
    value was serialised, one PUT went to [Url + "/" + path] with it,
    and the location is a new one at that address, its value nil for an
    empty reply and the decoded reply otherwise. With an error and no
    location: it is the error of the serialisation, of the transport or
    of the decoding of a non-empty reply. *)
Theorem Set_spec s l x a path v params :
  heap s !! l = Some x → api x = Some a →
  let u := Url x +:+ "/" +:+ path in
  ∃ r s', Set_ (Some l) path v params s = Some (r, s') ∧
    match r with
    | (Some l', None) =>
        ∃ body res cached,
          json_Marshal v = inr body
          ∧ Call a "PUT" u (Auth x) body params (world s)
            = ((res, None), world s')
          ∧ calls s' = (calls s ++ [mkInvocation "PUT" u (Auth x)
                                     body params])%list
          ∧ heap s !! l' = None
          ∧ heap s' = <[l' := mkF u (Auth x) (api x) cached]> (heap s)
          ∧ (res = [] → cached = None)
          ∧ (res ≠ [] → json_Unmarshal res None = inr cached)
    | (None, Some e) =>
        json_Marshal v = inl e ∧ s' = s
        ∨ ∃ body res err w,
            json_Marshal v = inr body
            ∧ Call a "PUT" u (Auth x) body params (world s)
              = ((res, err), w)
            ∧ (err = Some e
               ∨ err = None ∧ res ≠ []
                 ∧ json_Unmarshal res None = inl e)
    | _ => False
    end.
Proof.
  intros Hl Ha u. destruct (json_Marshal v) as [e|body] eqn:Hm.
  { rewrite (Set_run_marshal_error _ _ _ _ _ _ _ Hl Hm).
    do 2 eexists. split; [reflexivity|]. simpl. eauto. }
  destruct (Call a "PUT" u (Auth x) body params (world s))
    as [[res err] w] eqn:Hc.
  rewrite (Set_run _ _ _ _ _ _ _ _ _ _ _ Hl Ha Hm Hc). fold u.
  destruct err as [e|].
  { do 2 eexists. split; [reflexivity|]. simpl.
    right. exists body, res, (Some e), w. eauto. }
  destruct res as [|b res]; simpl.
  { do 2 eexists. split; [reflexivity|]. simpl.
    exists body, [], None. repeat split; try done.
    apply fresh_lookup_None. }
  destruct (json_Unmarshal (b :: res) None) as [e|cached] eqn:Hu.
  { do 2 eexists. split; [reflexivity|]. simpl.
    right. exists body, (b :: res), None, w. eauto 10. }
  do 2 eexists. split; [reflexivity|]. simpl.
  exists body, (b :: res), cached. repeat split; try done.
  apply fresh_lookup_None.
Qed.

(** C9. [Child], [Push], [Set] and [Remove] return and leave the
    receiver as it was, field for field; a location that [Child], [Push]
    or [Set] returns has the receiver's token and transport. *)
Theorem receiver_frame s l x a :
  heap s !! l = Some x → api x = Some a →
  (∀ path params v,
     ∃ r s', Child (Some l) path params v s = Some (r, s')
             ∧ heap s' !! l = Some x ∧ carries x s' r)
  ∧ (∀ v params,
       ∃ r e s', Push (Some l) v params s = Some ((r, e), s')
                 ∧ heap s' !! l = Some x ∧ carries x s' r)
  ∧ (∀ path v params,
       ∃ r e s', Set_ (Some l) path v params s = Some ((r, e), s')
                 ∧ heap s' !! l = Some x ∧ carries x s' r)
  ∧ (∀ path params,
       ∃ e s', Remove (Some l) path params s = Some (e, s')
               ∧ heap s' !! l = Some x).
Proof.
  intros Hl Ha.
  pose proof (fresh_not_allocated _ _ _ Hl) as Hfresh.
  repeat split.
  - intros path params v.
    destruct (Call a "GET" (Url x +:+ "/" +:+ path) (Auth x) [] params
                (world s)) as [[res err] w] eqn:Hc.
    rewrite (Child_run _ _ _ _ _ _ _ _ _ _ Hl Ha Hc).
    destruct err as [e|]; [returned|].
    destruct (json_Unmarshal res v) as [e|v']; [returned|].
    kept_and_made.
  - intros v params. destruct (json_Marshal v) as [e|body] eqn:Hm.
    { rewrite (Push_run_marshal_error _ _ _ _ Hm). returned. }
    destruct (Call a "POST" (Url x) (Auth x) body params (world s))
      as [[res err] w] eqn:Hc.
    rewrite (Push_run _ _ _ _ _ _ _ _ _ _ Hl Ha Hm Hc).
    destruct err as [e|]; [returned|].
    destruct (json_Unmarshal_map res) as [e|rep]; [returned|].
    kept_and_made.
  - intros path v params. destruct (json_Marshal v) as [e|body] eqn:Hm.
    { rewrite (Set_run_marshal_error _ _ _ _ _ _ _ Hl Hm). returned. }
    destruct (Call a "PUT" (Url x +:+ "/" +:+ path) (Auth x) body params
                (world s)) as [[res err] w] eqn:Hc.
    rewrite (Set_run _ _ _ _ _ _ _ _ _ _ _ Hl Ha Hm Hc).
    destruct err as [e|]; [returned|].
    destruct (0 <? length res)%nat;
      [destruct (json_Unmarshal res None) as [e|cached]|];
      kept_and_made.
  - intros path params.
    destruct (Call a "DELETE" (Url x +:+ "/" +:+ path) (Auth x) [] params
                (world s)) as [[res err] w] eqn:Hc.
    rewrite (Remove_run _ _ _ _ _ _ _ _ _ Hl Ha Hc). returned.
Qed.

(** [Value] on a location without a value: one read of [Url + "/"],
    into a location of its own. *)
Lemma Value_run_absent s l x a res err w :
  heap s !! l = Some x → api x = Some a → value x = None →
  Call a "GET" (Url x +:+ "/" +:+ "") (Auth x) [] ∅ (world s)
    = ((res, err), w) →
  ∃ s', Value (Some l) s = Some (read_result res err, s')
        ∧ heap s' !! l = Some x
        ∧ calls s' = (calls s ++ [mkInvocation "GET" (Url x +:+ "/" +:+ "")
                                    (Auth x) [] ∅])%list
        ∧ world s' = w.
Proof.
  intros Hl Ha Hv Hc. unfold Value, read_result.
  rewrite run_bind, (run_deref _ _ _ Hl), Hv, run_bind.
  rewrite (Child_run _ _ _ _ _ _ _ _ _ _ Hl Ha Hc).
  destruct err as [e|]; [returned|].
  destruct (json_Unmarshal res None) as [e|v]; [returned|].
  rewrite run_bind. unfold deref. simpl. rewrite lookup_insert_eq.
  name_result. split; [|done].
  rewrite lookup_insert_ne; [done|]. by eapply fresh_not_allocated.
Qed.

(** C2, as the code has it. [Value] on a location that holds a value
    returns it: no call, no change of state. On a location without one
    it makes one GET at [Url + "/"] with the receiver's token and no
    parameters and returns the decoded document, or nil when the call or
    the decoding fails; the receiver is left as it was, its value still
    absent. *)
Theorem Value_spec s l x a :
  heap s !! l = Some x → api x = Some a →
  (∀ v, value x = Some v → Value (Some l) s = Some (Some v, s))
  ∧ (∀ res err w,
       value x = None →
       Call a "GET" (Url x +:+ "/" +:+ "") (Auth x) [] ∅ (world s)
         = ((res, err), w) →
       ∃ s', Value (Some l) s = Some (read_result res err, s')
             ∧ heap s' !! l = Some x
             ∧ calls s' = (calls s ++ [mkInvocation "GET"
                                         (Url x +:+ "/" +:+ "")
                                         (Auth x) [] ∅])%list
             ∧ world s' = w).
Proof.
  intros Hl Ha. split.
  - intros v Hv. unfold Value.
    rewrite run_bind, (run_deref _ _ _ Hl), Hv, run_bind.
    rewrite run_ret, run_bind, (run_deref _ _ _ Hl), Hv. done.
  - intros res err w Hv Hc. by eapply Value_run_absent.
Qed.

(** C3, as the code has it. [Update] returns the serialisation error
    without a call or a change of state when the value does not
    serialise. Otherwise it makes one PATCH at [Url + "/" + path] and
    returns what the transport returned as its error; the receiver's
    value is then nil when [path] is empty, whatever the transport
    returned, and the heap is unchanged when [path] is not empty. The
    receiver's address, token and transport stay as they were. *)
Theorem Update_spec s l x a path v params :
  heap s !! l = Some x → api x = Some a →
  ∃ err s', Update (Some l) path v params s = Some (err, s') ∧
    match json_Marshal v with
    | inl e => err = Some e ∧ s' = s
    | inr body =>
        ∃ res,
          Call a "PATCH" (Url x +:+ "/" +:+ path) (Auth x) body params
            (world s) = ((res, err), world s')
          ∧ calls s' = (calls s ++ [mkInvocation "PATCH"
                                      (Url x +:+ "/" +:+ path) (Auth x)
                                      body params])%list
          ∧ (path = "" →
             heap s' = <[l := mkF (Url x) (Auth x) (api x) None]> (heap s))
          ∧ (path ≠ "" → heap s' = heap s)
    end.
Proof.
  intros Hl Ha. destruct (json_Marshal v) as [e|body] eqn:Hm.
  { unfold Update. rewrite Hm. by name_result. }
  destruct (Call a "PATCH" (Url x +:+ "/" +:+ path) (Auth x) body params
              (world s)) as [[res err] w] eqn:Hc.
  rewrite (Update_run _ _ _ _ _ _ _ _ _ _ _ Hl Ha Hm Hc).
  destruct path as [|c path]; simpl; name_result; exists res; by eauto.
Qed.

End methods.

(** ** The statements on the test double *)

(** A 404 whose body is [null] comes back from [client.Call] as an error
    with the text [null]. *)
Lemma client_Call_status_witness :
  ∃ e, client_Call "GET" "https://x.firebaseio.com/a" "" [] ∅
         [(404%Z, Double.bytes "null")]
       = (([], Some e), [])
       ∧ e = errors_New "null"
       ∧ list_byte_of_string (Error e) = Double.bytes "null".
Proof.
  refine (proj1 (client_Call_status (http := Double.http_scripted)
                   "GET" "https://x.firebaseio.com/a" "" [] ∅
                   [(404%Z, Double.bytes "null")] [] []
                   ("GET", "https://x.firebaseio.com/a/.json", [], false)
                   (mkResponse 404 (Double.bytes "null"))
                   (Double.bytes "null") _ _ _) _).
  - vm_compute. reflexivity.
  - reflexivity.
  - reflexivity.
  - simpl. lia.
Defined.

(** [Remove] against a server that answers 200. *)
Lemma Remove_spec_witness :
  ∃ s', Remove (Some 1%positive) "a" ∅
          (Double.start None [(200%Z, Double.bytes "null")])
        = Some (None, s')
        ∧ calls s' = [mkInvocation "DELETE" "https://x.firebaseio.com/a"
                        "tok" [] ∅]
        ∧ heap s' = {[ 1%positive := Double.root None ]}
        ∧ world s' = [].
Proof.
  refine (Remove_spec (Double.start None [(200%Z, Double.bytes "null")])
            1%positive (Double.root None) client "a" ∅
            (Double.bytes "null") None [] _ _ _).
  - vm_compute. reflexivity.
  - reflexivity.
  - vm_compute. reflexivity.
Defined.

(** [Child] against a server that answers 404 with the body [null]:
    nil. *)
Lemma Child_nil_on_failure_witness :
  Child (Some 1%positive) "a" ∅ None
    (Double.start None [(404%Z, Double.bytes "null")])
  = Some (None,
          mkState {[ 1%positive := Double.root None ]} []
            [mkInvocation "GET" "https://x.firebaseio.com/a" "tok" [] ∅]).
Proof.
  refine (proj2 (Child_nil_on_failure
                   (Double.start None [(404%Z, Double.bytes "null")])
                   1%positive (Double.root None) client "a" ∅ None _ _)
            eq_refl
            ("GET", "https://x.firebaseio.com/a/.json?auth=tok", [], false)
            (mkResponse 404 (Double.bytes "null")) (Double.bytes "null")
            [] [] _ _ _ _).
  - vm_compute. reflexivity.
  - reflexivity.
  - vm_compute. reflexivity.
  - reflexivity.
  - reflexivity.
  - reflexivity.
Defined.

(** [Push] against a server that answers with a generated key. *)
Lemma Push_spec_witness :
  ∃ r s', Push (Some 1%positive) (Some true) ∅
            (Double.start None [(200%Z, Double.name_reply "-K1")])
          = Some (r, s').
Proof.
  destruct (Push_spec
              (Double.start None [(200%Z, Double.name_reply "-K1")])
              1%positive (Double.root None) client (Some true) ∅)
    as (r & s' & Hrun & _).
  - vm_compute. reflexivity.
  - reflexivity.
  - exists r, s'. exact Hrun.
Defined.

(** [Push] against a server that answers with an empty object. *)
Lemma Push_without_name_witness :
  ∃ l' s', Push (Some 1%positive) (Some true) ∅
             (Double.start None [(200%Z, Double.bytes "{}")])
           = Some ((Some l', None), s')
           ∧ heap s' !! l'
             = Some (mkF "https://x.firebaseio.com/" "tok" (Some client)
                       (Some true)).
Proof.
  refine (Push_without_name
            (Double.start None [(200%Z, Double.bytes "{}")])
            1%positive (Double.root None) client (Some true) ∅
            (Double.bytes "true") (Double.bytes "{}") [] ∅ _ _ _ _ _ _).
  - vm_compute. reflexivity.
  - reflexivity.
  - reflexivity.
  - vm_compute. reflexivity.
  - vm_compute. reflexivity.
  - reflexivity.
Defined.

(** [Set] against a server that echoes the stored value. *)
Lemma Set_spec_witness :
  ∃ r s', Set_ (Some 1%positive) "a" (Some true) ∅
            (Double.start None [(200%Z, Double.bytes "true")])
          = Some (r, s').
Proof.
  destruct (Set_spec
              (Double.start None [(200%Z, Double.bytes "true")])
              1%positive (Double.root None) client "a" (Some true) ∅)
    as (r & s' & Hrun & _).
  - vm_compute. reflexivity.
  - reflexivity.
  - exists r, s'. exact Hrun.
Defined.

(** The receiver after a [Remove]. *)
Lemma receiver_frame_witness :
  ∃ e s', Remove (Some 1%positive) "a" ∅
            (Double.start (Some true) [(200%Z, Double.bytes "null")])
          = Some (e, s')
          ∧ heap s' !! 1%positive = Some (Double.root (Some true)).
Proof.
  refine (proj2 (proj2 (proj2
            (receiver_frame
               (Double.start (Some true) [(200%Z, Double.bytes "null")])
               1%positive (Double.root (Some true)) client _ _))) "a" ∅).
  - vm_compute. reflexivity.
  - reflexivity.
Defined.

(** [Value] on a location without a value, against a server that holds
    [true]: the document is returned and the receiver still has no
    value. *)
Lemma Value_spec_witness :
  ∃ s', Value (Some 1%positive)
          (Double.start None [(200%Z, Double.bytes "true")])
        = Some (Some true, s')
        ∧ heap s' !! 1%positive = Some (Double.root None)
        ∧ calls s' = [mkInvocation "GET" "https://x.firebaseio.com/" "tok"
                        [] ∅]
        ∧ world s' = [].
Proof.
  refine (proj2 (Value_spec
                   (Double.start None [(200%Z, Double.bytes "true")])
                   1%positive (Double.root None) client _ _)
            (Double.bytes "true") None [] _ _).
  - vm_compute. reflexivity.
  - reflexivity.
  - reflexivity.
  - vm_compute. reflexivity.
Defined.

(** C2 as stated fails: after [Value] has fetched [true] for a location
    without a value, the location still has none. *)
Lemma Value_does_not_populate :
  ¬ (∀ (s s' : state bool Double.server) (l : loc)
       (x : F bool Double.server) (r : option bool),
       heap s !! l = Some x → value x = None →
       Value (Some l) s = Some (r, s') →
       value <$> heap s' !! l = Some r).
Proof.
  intros Hclaim.
  destruct (Value (Some 1%positive)
              (Double.start None [(200%Z, Double.bytes "true")]))
    as [[r s']|] eqn:Hrun; [|by vm_compute in Hrun].
  pose proof (Hclaim (Double.start None [(200%Z, Double.bytes "true")]) s'
                1%positive (Double.root None) r
                ltac:(vm_compute; reflexivity) eq_refl Hrun) as Hpop.
  vm_compute in Hrun. injection Hrun as <- <-.
  vm_compute in Hpop. discriminate Hpop.
Qed.

(** [Update] of the root through a transport that fails. *)
Lemma Update_spec_witness :
  ∃ err s', Update (Some 1%positive) "" (Some true) ∅
              (Double.start_failing (Some true))
            = Some (err, s').
Proof.
  destruct (Update_spec (Double.start_failing (Some true)) 1%positive
              (mkF "https://x.firebaseio.com" "tok" (Some Double.failing)
                 (Some true))
              Double.failing "" (Some true) ∅)
    as (err & s' & Hrun & _).
  - vm_compute. reflexivity.
  - reflexivity.
  - exists err, s'. exact Hrun.
Defined.

(** C3 as stated fails: an [Update] of the root that the transport
    refuses returns the error and has cleared the receiver's value. *)
Lemma Update_failure_clears_value :
  ¬ (∀ (s s' : state bool Double.server) (l : loc)
       (x : F bool Double.server) (path : string) (v : option bool)
       (params : gmap string string) (e : error),
       heap s !! l = Some x →
       Update (Some l) path v params s = Some (Some e, s') →
       heap s' !! l = Some x).
Proof.
  intros Hclaim.
  pose proof (Hclaim (Double.start_failing (Some true))
                (mkState {[ 1%positive :=
                              mkF "https://x.firebaseio.com" "tok"
                                (Some Double.failing) None ]} []
                   [mkInvocation "PATCH" "https://x.firebaseio.com/" "tok"
                      (Double.bytes "true") ∅])
                1%positive
                (mkF "https://x.firebaseio.com" "tok" (Some Double.failing)
                   (Some true))
                "" (Some true) ∅ Double.refused
                ltac:(vm_compute; reflexivity)
                ltac:(vm_compute; reflexivity)) as Hkept.
  vm_compute in Hkept. discriminate Hkept.
Qed.


(** * Further properties of the code *)

(** ** The HTTP transport, its failures and its address *)

Section transport_more.

Context {W : Type} {http : Http W}.

(** [client.Call] never returns bytes together with an error: whenever
    the error is not nil the byte slice is nil. *)
Theorem client_Call_bytes_or_error method path auth body params (w : W) :
  snd (fst (client_Call method path auth body params w)) = None
  ∨ fst (fst (client_Call method path auth body params w)) = [].
Proof.
  unfold client_Call.
  destruct (http_NewRequest _ _ _) as [e|req]; [by right|].
  destruct (httpClient_Do _ _) as [[e|res] w1]; [by right|].
  destruct (ioutil_ReadAll _ _) as [[ret [e|]] w2]; [by right|].
  destruct (400 <=? StatusCode res)%Z; [by right | by left].
Qed.

(** An error of the libraries comes back as it is, with no bytes: the
    error of building the request (nothing is sent then and the world is
    untouched), the error of sending it, and the error of reading the
    body (also when the status code is below 400). *)
Theorem client_Call_library_errors method path auth body params (w : W) :
  (∀ e, http_NewRequest method (client_Call_path path auth params) body
        = inl e →
        client_Call method path auth body params w = (([], Some e), w))
  ∧ (∀ req e w1,
       http_NewRequest method (client_Call_path path auth params) body
       = inr req →
       httpClient_Do (Request_set_Close req true) w = (inl e, w1) →
       client_Call method path auth body params w = (([], Some e), w1))
  ∧ (∀ req res ret e w1 w2,
       http_NewRequest method (client_Call_path path auth params) body
       = inr req →
       httpClient_Do (Request_set_Close req true) w = (inr res, w1) →
       ioutil_ReadAll (Body res) w1 = ((ret, Some e), w2) →
       client_Call method path auth body params w
       = (([], Some e), Body_Close (Body res) w2)).
Proof.
  split_and!.
  - intros e Hreq. unfold client_Call. by rewrite Hreq.
  - intros req e w1 Hreq Hdo. unfold client_Call. by rewrite Hreq, Hdo.
  - intros req res ret e w1 w2 Hreq Hdo Hread. unfold client_Call.
    by rewrite Hreq, Hdo, Hread.
Qed.

(** Once a response has been received its body is closed, whether the
    body could be read or not and whatever the status code: the world
    [client.Call] leaves is the one [Close] leaves after the read. *)
Theorem client_Call_closes_body method path auth body params (w w1 : W)
    req res :
  http_NewRequest method (client_Call_path path auth params) body = inr req →
  httpClient_Do (Request_set_Close req true) w = (inr res, w1) →
  snd (client_Call method path auth body params w)
  = Body_Close (Body res) (snd (ioutil_ReadAll (Body res) w1)).
Proof.
  intros Hreq Hdo. unfold client_Call. rewrite Hreq, Hdo.
  destruct (ioutil_ReadAll _ _) as [[ret [e|]] w2]; [done|].
  by destruct (400 <=? StatusCode res)%Z.
Qed.

End transport_more.

Lemma client_Call_path_add_slash (path auth : string)
    (params : gmap string string) :
  strings.HasSuffix path "/" = false →
  client_Call_path (path +:+ "/") auth params
  = client_Call_path path auth params.
Proof.
  intros Hno. unfold client_Call_path.
  by rewrite HasSuffix_append, Hno.
Qed.

(** An address and the same address with a slash added are requested at
    the same place: [client.Call] adds the slash itself when it is
    missing. *)
Theorem client_Call_path_slash (path auth : string)
    (params : gmap string string) :
  strings.HasSuffix path "/" = false →
  client_Call_path (path +:+ "/") auth params
  = client_Call_path path auth params.
Proof. apply client_Call_path_add_slash. Qed.

Lemma append_cancel_l (s t t' : string) : s +:+ t = s +:+ t' → t = t'.
Proof.
  induction s as [|c s IH]; [done|].
  change (String c (s +:+ t) = String c (s +:+ t') → t = t').
  intros [= H]. by apply IH.
Qed.

Lemma union_default_empty (auth : string) (params : gmap string string) :
  params ∪ default_auth auth = ∅ ↔ auth = "" ∧ params = ∅.
Proof.
  split.
  - intros Hempty. assert (params = ∅) as ->.
    { apply map_eq. intros k. rewrite lookup_empty.
      apply (f_equal (fun m => m !! k)) in Hempty.
      rewrite lookup_empty in Hempty.
      by apply lookup_union_None in Hempty as [? _]. }
    split; [|done]. rewrite (left_id_L ∅ (∪)) in Hempty.
    unfold default_auth in Hempty. destruct auth; [done|].
    simpl in Hempty. apply (f_equal (fun m => m !! "auth")) in Hempty.
    by rewrite lookup_singleton_eq, lookup_empty in Hempty.
  - intros [-> ->]. by rewrite (left_id_L ∅ (∪)).
Qed.

(** The request address has no query, so that it ends with the suffix,
    exactly when the token is empty and there is no parameter. *)
Theorem client_Call_path_no_query (path auth : string)
    (params : gmap string string) :
  client_Call_path path auth params
  = (if strings.HasSuffix path "/" then path else path +:+ "/") +:+ suffix
  ↔ auth = "" ∧ params = ∅.
Proof.
  unfold client_Call_path.
  rewrite client_Call_qs_union, map_size_fmap. fold (default_auth auth).
  rewrite <- union_default_empty, <- map_size_empty_iff.
  replace (if negb (strings.HasSuffix path "/") then path +:+ "/" else path)
    with (if strings.HasSuffix path "/" then path else path +:+ "/")
    by (by destruct (strings.HasSuffix path "/")).
  destruct (size (params ∪ default_auth auth)) as [|n]; simpl; [done|].
  split; [|done]. intros Heq.
  rewrite <- (append_empty_r (_ +:+ suffix)) in Heq at 2.
  by apply append_cancel_l in Heq.
Qed.


(** ** Reading, and what a returned location holds *)

Section methods_more.

Context {V W : Type} {json : Json V} {http : Http W}.

Implicit Types (s : state V W) (l : loc) (x : F V W) (a : Api W).

Lemma Value_run_present s l x d :
  heap s !! l = Some x → value x = Some d →
  Value (Some l) s = Some (Some d, s).
Proof.
  intros Hl Hv. unfold Value.
  rewrite run_bind, (run_deref _ _ _ Hl), Hv, run_bind.
  by rewrite run_ret, run_bind, (run_deref _ _ _ Hl), Hv.
Qed.

(** What is known when [Child] has returned a location. *)
Lemma Child_location s l x a path params v l' s' :
  heap s !! l = Some x → api x = Some a →
  Child (Some l) path params v s = Some (Some l', s') →
  ∃ res w v',
    Call a "GET" (Url x +:+ "/" +:+ path) (Auth x) [] params (world s)
      = ((res, None), w)
    ∧ json_Unmarshal res v = inr v'
    ∧ heap s !! l' = None
    ∧ s' = mkState (<[l' := mkF (Url x +:+ "/" +:+ path) (Auth x) (api x) v']>
                      (heap s)) w
             (calls s ++ [mkInvocation "GET" (Url x +:+ "/" +:+ path)
                            (Auth x) [] params]).
Proof.
  intros Hl Ha Hrun.
  destruct (Call a "GET" (Url x +:+ "/" +:+ path) (Auth x) [] params
              (world s)) as [[res err] w] eqn:Hc.
  rewrite (Child_run _ _ _ _ _ _ _ _ _ _ Hl Ha Hc) in Hrun.
  destruct err as [e|]; [done|].
  destruct (json_Unmarshal res v) as [e|v'] eqn:Hu; [done|].
  injection Hrun as <- <-. exists res, w, v'. repeat split; try done.
  apply fresh_lookup_None.
Qed.

(** When the call succeeds and the response decodes, [Child] returns a
    location that did not exist before, at [Url + "/" + path], holding the
    decoded document and the receiver's token and transport; it made the
    one GET and changed no other location. *)
Theorem Child_success s l x a path params v res w v' :
  heap s !! l = Some x → api x = Some a →
  Call a "GET" (Url x +:+ "/" +:+ path) (Auth x) [] params (world s)
    = ((res, None), w) →
  json_Unmarshal res v = inr v' →
  ∃ l' s', Child (Some l) path params v s = Some (Some l', s')
           ∧ heap s !! l' = None
           ∧ heap s' = <[l' := mkF (Url x +:+ "/" +:+ path) (Auth x)
                                 (api x) v']> (heap s)
           ∧ calls s' = (calls s ++ [mkInvocation "GET"
                                       (Url x +:+ "/" +:+ path) (Auth x)
                                       [] params])%list
           ∧ world s' = w.
Proof.
  intros Hl Ha Hc Hu.
  rewrite (Child_run _ _ _ _ _ _ _ _ _ _ Hl Ha Hc), Hu.
  do 2 eexists. split; [reflexivity|]. simpl.
  repeat split. apply fresh_lookup_None.
Qed.

(** Paths compose: a [Child] of a location that [Child] returned reads
    the address that one [Child] with the joined path reads, with the
    same token, through the same transport; the location it returns is
    at that address. *)
Theorem Child_of_Child s l x a p1 params1 v1 l1 s1 p2 params2 v2 :
  heap s !! l = Some x → api x = Some a →
  Child (Some l) p1 params1 v1 s = Some (Some l1, s1) →
  ∃ r s2 res err,
    Child (Some l1) p2 params2 v2 s1 = Some (r, s2)
    ∧ Call a "GET" (Url x +:+ "/" +:+ (p1 +:+ "/" +:+ p2)) (Auth x) []
        params2 (world s1) = ((res, err), world s2)
    ∧ calls s2 = (calls s1 ++ [mkInvocation "GET"
                                 (Url x +:+ "/" +:+ (p1 +:+ "/" +:+ p2))
                                 (Auth x) [] params2])%list
    ∧ (∀ l2, r = Some l2 →
         ∃ y, heap s2 !! l2 = Some y
              ∧ Url y = Url x +:+ "/" +:+ (p1 +:+ "/" +:+ p2)
              ∧ Auth y = Auth x ∧ api y = api x).
Proof.
  intros Hl Ha Hrun.
  destruct (Child_location _ _ _ _ _ _ _ _ _ Hl Ha Hrun)
    as (res1 & w1 & v1' & _ & _ & _ & ->).
  set (u := Url x +:+ "/" +:+ p1).
  set (x1 := mkF u (Auth x) (api x) v1').
  set (s1 := mkState _ _ _).
  assert (heap s1 !! l1 = Some x1) as Hl1 by apply lookup_insert_eq.
  assert (u +:+ "/" +:+ p2 = Url x +:+ "/" +:+ (p1 +:+ "/" +:+ p2)) as Hu
    by (unfold u; by rewrite !append_assoc).
  destruct (Call a "GET" (Url x +:+ "/" +:+ (p1 +:+ "/" +:+ p2)) (Auth x) []
              params2 (world s1)) as [[res err] w] eqn:Hc.
  assert (Call a "GET" (Url x1 +:+ "/" +:+ p2) (Auth x1) [] params2
            (world s1) = ((res, err), w)) as Hc1
    by (simpl; by rewrite Hu).
  rewrite (Child_run s1 l1 x1 a p2 params2 v2 res err w Hl1 Ha Hc1).
  simpl Url. simpl Auth. simpl api. rewrite Hu.
  destruct err as [e|];
    [|destruct (json_Unmarshal res v2) as [e|v2']];
    do 4 eexists; (split; [reflexivity|]); simpl;
    (split; [reflexivity|]); (split; [reflexivity|]);
    intros l2 [= <-].
  eexists. by rewrite lookup_insert_eq.
Qed.

(** A location that [Child] returned with a document that is not nil
    serves it: [Value] on it returns the document and makes no call. *)
Theorem Child_then_Value s l x a path params v res w d :
  heap s !! l = Some x → api x = Some a →
  Call a "GET" (Url x +:+ "/" +:+ path) (Auth x) [] params (world s)
    = ((res, None), w) →
  json_Unmarshal res v = inr (Some d) →
  ∃ l' s', Child (Some l) path params v s = Some (Some l', s')
           ∧ Value (Some l') s' = Some (Some d, s').
Proof.
  intros Hl Ha Hc Hu.
  rewrite (Child_run _ _ _ _ _ _ _ _ _ _ Hl Ha Hc), Hu.
  do 2 eexists. split; [reflexivity|].
  eapply Value_run_present; [apply lookup_insert_eq | done].
Qed.

(** The location that [Push] returns serves the pushed value, not the
    server's reply: [Value] on it returns the value and makes no call. *)
Theorem Push_then_Value s l x a d params body res w rep :
  heap s !! l = Some x → api x = Some a →
  json_Marshal (Some d) = inr body →
  Call a "POST" (Url x) (Auth x) body params (world s) = ((res, None), w) →
  json_Unmarshal_map res = inr rep →
  ∃ l' s', Push (Some l) (Some d) params s = Some ((Some l', None), s')
           ∧ Value (Some l') s' = Some (Some d, s').
Proof.
  intros Hl Ha Hm Hc Hu.
  rewrite (Push_run _ _ _ _ _ _ _ _ _ _ Hl Ha Hm Hc), Hu.
  do 2 eexists. split; [reflexivity|].
  eapply Value_run_present; [apply lookup_insert_eq | done].
Qed.

(** The location that [Set] returns serves the server's reply, not the
    value that was sent: when the reply is not empty and decodes to a
    document that is not nil, [Value] on it returns that document and
    makes no call. *)
Theorem Set_then_Value s l x a path v params body res w d :
  heap s !! l = Some x → api x = Some a →
  json_Marshal v = inr body →
  Call a "PUT" (Url x +:+ "/" +:+ path) (Auth x) body params (world s)
    = ((res, None), w) →
  res ≠ [] →
  json_Unmarshal res None = inr (Some d) →
  ∃ l' s', Set_ (Some l) path v params s = Some ((Some l', None), s')
           ∧ Value (Some l') s' = Some (Some d, s').
Proof.
  intros Hl Ha Hm Hc Hres Hu.
  rewrite (Set_run _ _ _ _ _ _ _ _ _ _ _ Hl Ha Hm Hc), Hu.
  destruct res as [|b res]; [done|]. simpl.
  do 2 eexists. split; [reflexivity|].
  eapply Value_run_present; [apply lookup_insert_eq | done].
Qed.

(** [Value] through the HTTP client, on a location without a value whose
    address does not end in a slash: the request goes where a call at the
    location's own address goes, and on a status code below 400 [Value]
    returns the decoded body, the body having been closed. *)
Theorem Value_through_client s l x req res ret w1 w2 :
  heap s !! l = Some x → api x = Some client → value x = None →
  strings.HasSuffix (Url x) "/" = false →
  http_NewRequest "GET" (client_Call_path (Url x) (Auth x) ∅) [] = inr req →
  httpClient_Do (Request_set_Close req true) (world s) = (inr res, w1) →
  ioutil_ReadAll (Body res) w1 = ((ret, None), w2) →
  (StatusCode res < 400)%Z →
  ∃ s', Value (Some l) s = Some (read_result ret None, s')
        ∧ heap s' !! l = Some x
        ∧ world s' = Body_Close (Body res) w2.
Proof.
  intros Hl Ha Hv Hslash Hreq Hdo Hread Hcode.
  assert (Call client "GET" (Url x +:+ "/" +:+ "") (Auth x) [] ∅ (world s)
          = ((ret, None), Body_Close (Body res) w2)) as Hc.
  { change (client_Call "GET" (Url x +:+ "/") (Auth x) [] ∅ (world s)
            = ((ret, None), Body_Close (Body res) w2)).
    rewrite <- (client_Call_path_add_slash _ _ _ Hslash) in Hreq.
    rewrite (client_Call_run _ _ _ _ _ _ _ _ _ _ _ Hreq Hdo Hread).
    apply Z.leb_gt in Hcode. by rewrite Hcode. }
  destruct (Value_run_absent s l x client ret None _ Hl Ha Hv Hc)
    as (s' & Hrun & Hl' & _ & Hw).
  by exists s'.
Qed.

(** ** Initialisation *)

(** [Init] sets the address, the token and the transport of the receiver,
    the HTTP client standing in for a nil transport; it keeps the
    receiver's value, makes no call and touches no other location. *)
Theorem Init_spec s l x root auth (a0 : option (Api W)) :
  heap s !! l = Some x →
  ∃ s', Init (Some l) root auth a0 s = Some (tt, s')
        ∧ heap s' = <[l := mkF root auth (Some (default client a0))
                              (value x)]> (heap s)
        ∧ world s' = world s
        ∧ calls s' = calls s.
Proof.
  intros Hl. unfold Init.
  rewrite run_bind, (run_assign _ _ _ _ Hl), run_bind.
  erewrite run_assign by (simpl; apply lookup_insert_eq).
  erewrite run_assign by (simpl; apply lookup_insert_eq).
  eexists. split; [reflexivity|]. simpl.
  rewrite !insert_insert_eq. by destruct a0.
Qed.

(** [Init] does not forget a value: on a location that holds one, [Value]
    after an [Init] with another address still returns it, without a
    call. *)
Theorem Init_keeps_value s l x d root auth (a0 : option (Api W)) :
  heap s !! l = Some x → value x = Some d →
  ∃ s', Init (Some l) root auth a0 s = Some (tt, s')
        ∧ Value (Some l) s' = Some (Some d, s')
        ∧ calls s' = calls s.
Proof.
  intros Hl Hv. unfold Init.
  rewrite run_bind, (run_assign _ _ _ _ Hl), run_bind.
  erewrite run_assign by (simpl; apply lookup_insert_eq).
  erewrite run_assign by (simpl; apply lookup_insert_eq).
  eexists. split; [reflexivity|]. split; [|done].
  eapply Value_run_present; [simpl; apply lookup_insert_eq | done].
Qed.

End methods_more.

(** ** The cache across calls *)

Section cache.

Context {V W : Type} {json : Json V} {http : Http W}.

Implicit Types (s : state V W) (l : loc) (x : F V W) (a : Api W).

(** After an [Update] of the receiver's own address (empty path),
    whatever the transport answered to it, [Value] reads again: the two
    calls made are the PATCH and a GET, and [Value] returns what the GET
    brought, not the value held before. *)
Theorem Update_root_then_Value s l x a v params body
    res1 err1 w1 res2 err2 w2 :
  heap s !! l = Some x → api x = Some a →
  json_Marshal v = inr body →
  Call a "PATCH" (Url x +:+ "/" +:+ "") (Auth x) body params (world s)
    = ((res1, err1), w1) →
  Call a "GET" (Url x +:+ "/" +:+ "") (Auth x) [] ∅ w1
    = ((res2, err2), w2) →
  ∃ s1 s2,
    Update (Some l) "" v params s = Some (err1, s1)
    ∧ Value (Some l) s1 = Some (read_result res2 err2, s2)
    ∧ calls s2
      = (calls s ++ [mkInvocation "PATCH" (Url x +:+ "/" +:+ "") (Auth x)
                       body params;
                     mkInvocation "GET" (Url x +:+ "/" +:+ "") (Auth x)
                       [] ∅])%list
    ∧ world s2 = w2.
Proof.
  intros Hl Ha Hm Hc1 Hc2.
  rewrite (Update_run _ _ _ _ _ _ _ _ _ _ _ Hl Ha Hm Hc1). simpl.
  set (x0 := mkF (Url x) (Auth x) (api x) None).
  set (s1 := mkState _ _ _).
  destruct (Value_run_absent s1 l x0 a res2 err2 w2)
    as (s2 & Hrun & _ & Hcalls & Hw); try done.
  { apply lookup_insert_eq. }
  exists s1, s2. repeat split; try done.
  rewrite Hcalls. simpl. by rewrite <- app_assoc.
Qed.

(** After an [Update] below the receiver (a path that is not empty) the
    receiver still serves the value it held: [Value] returns it and makes
    no call, so the PATCH is the only call. *)
Theorem Update_below_then_Value s l x a d path v params body res err w :
  heap s !! l = Some x → api x = Some a → value x = Some d →
  path ≠ "" →
  json_Marshal v = inr body →
  Call a "PATCH" (Url x +:+ "/" +:+ path) (Auth x) body params (world s)
    = ((res, err), w) →
  ∃ s1,
    Update (Some l) path v params s = Some (err, s1)
    ∧ Value (Some l) s1 = Some (Some d, s1)
    ∧ calls s1
      = (calls s ++ [mkInvocation "PATCH" (Url x +:+ "/" +:+ path) (Auth x)
                       body params])%list.
Proof.
  intros Hl Ha Hv Hpath Hm Hc.
  rewrite (Update_run _ _ _ _ _ _ _ _ _ _ _ Hl Ha Hm Hc).
  destruct path as [|c path]; [done|]. simpl.
  eexists. split; [reflexivity|]. split; [|done].
  by eapply Value_run_present.
Qed.

(** [Value] on a location without a value reads every time it is called:
    two calls of [Value] make two GETs, and the second returns what the
    second GET brought. *)
Theorem Value_reads_every_time s l x a res1 err1 w1 res2 err2 w2 :
  heap s !! l = Some x → api x = Some a → value x = None →
  Call a "GET" (Url x +:+ "/" +:+ "") (Auth x) [] ∅ (world s)
    = ((res1, err1), w1) →
  Call a "GET" (Url x +:+ "/" +:+ "") (Auth x) [] ∅ w1
    = ((res2, err2), w2) →
  ∃ s1 s2,
    Value (Some l) s = Some (read_result res1 err1, s1)
    ∧ Value (Some l) s1 = Some (read_result res2 err2, s2)
    ∧ calls s2
      = (calls s ++ [mkInvocation "GET" (Url x +:+ "/" +:+ "") (Auth x)
                       [] ∅;
                     mkInvocation "GET" (Url x +:+ "/" +:+ "") (Auth x)
                       [] ∅])%list.
Proof.
  intros Hl Ha Hv Hc1 Hc2.
  destruct (Value_run_absent s l x a res1 err1 w1 Hl Ha Hv Hc1)
    as (s1 & Hrun1 & Hl1 & Hcalls1 & Hw1).
  rewrite <- Hw1 in Hc2.
  destruct (Value_run_absent s1 l x a res2 err2 w2 Hl1 Ha Hv Hc2)
    as (s2 & Hrun2 & _ & Hcalls2 & _).
  exists s1, s2. repeat split; try done.
  rewrite Hcalls2, Hcalls1. by rewrite <- app_assoc.
Qed.

End cache.

(** ** What no method does *)

(** A run that returned, opened up: every case of the method's body. *)
Ltac unfold_run H :=
  unfold Init, Value, Child, Push, Set_, Update, Remove in H;
  unfold mbind, M_mbind, M_bind, deref, api_Call, new_F, assign, M_ret,
    after_call in H.

Ltac crack :=
  repeat (simplify_eq;
          match goal with
          | H : context [match ?e with _ => _ end] |- _ => destruct e eqn:?
          end);
  simplify_eq.

Section never.

Context {V W : Type} {json : Json V} {http : Http W}.

Implicit Types (s : state V W) (l : loc) (x : F V W) (a : Api W) (f : ptr).

Lemma heap_sub_new s x :
  heap s ⊆ <[fresh (dom (heap s)) := x]> (heap s).
Proof. apply insert_subseteq, fresh_lookup_None. Qed.

Lemma Update_kept s s' f path v params r :
  Update f path v params s = Some (r, s') →
  kept_but_value f s s' ∧ (path ≠ "" → heap s' = heap s).
Proof.
  intros Hrun.
  assert (kept_but_value f s s) as Hrefl by (intros l y Hy; eauto 10).
  destruct (json_Marshal v) as [e|body] eqn:Hm.
  { unfold Update, M_ret in Hrun. rewrite Hm in Hrun. by simplify_eq. }
  destruct f as [l0|]; [|unfold_run Hrun; by rewrite Hm in Hrun].
  destruct (heap s !! l0) as [x|] eqn:Hl;
    [|unfold_run Hrun; by rewrite Hm, Hl in Hrun].
  destruct (api x) as [a|] eqn:Ha;
    [|unfold_run Hrun; by rewrite Hm, Hl, Ha in Hrun].
  destruct (Call a "PATCH" (Url x +:+ "/" +:+ path) (Auth x) body params
              (world s)) as [[res err] w] eqn:Hc.
  rewrite (Update_run _ _ _ _ _ _ _ _ _ _ _ Hl Ha Hm Hc) in Hrun.
  destruct path as [|c path]; simpl in Hrun; simplify_eq; simpl.
  - split; [|done]. intros l y Hy. simpl.
    destruct (decide (l = l0)) as [->|Hne].
    + simplify_eq. eexists. split; [apply lookup_insert_eq|]. simpl. eauto 10.
    + exists y. split; [by rewrite lookup_insert_ne|]. eauto 10.
  - split; [|done]. intros l y Hy. eauto 10.
Qed.

(** Every method makes at most one call through the transport, each with
    its own HTTP method: GET for [Child] and [Value], POST for [Push], PUT
    for [Set], PATCH for [Update], DELETE for [Remove]; [Init] makes
    none. *)
Theorem methods_issue_one_call s s' :
  (∀ f path params v r,
     Child f path params v s = Some (r, s') → issued "GET" s s')
  ∧ (∀ f r, Value f s = Some (r, s') → issued "GET" s s')
  ∧ (∀ f v params r, Push f v params s = Some (r, s') → issued "POST" s s')
  ∧ (∀ f path v params r,
       Set_ f path v params s = Some (r, s') → issued "PUT" s s')
  ∧ (∀ f path v params r,
       Update f path v params s = Some (r, s') → issued "PATCH" s s')
  ∧ (∀ f path params r,
       Remove f path params s = Some (r, s') → issued "DELETE" s s')
  ∧ (∀ f root auth api0 r,
       Init f root auth api0 s = Some (r, s') → calls s' = calls s).
Proof.
  repeat split; intros; match goal with H : _ = Some _ |- _ => unfold_run H end;
    crack; unfold issued; simpl; eauto.
Qed.

(** No method removes or changes a location that exists, but for the one
    assignment in [Update]: [Child], [Value], [Push] and [Set] only add
    locations, [Remove] leaves the heap as it is, and [Update] can only
    set the receiver's value to nil, and not even that when its path is
    not empty. *)
Theorem methods_keep_locations s s' :
  (∀ f path params v r,
     Child f path params v s = Some (r, s') → heap s ⊆ heap s')
  ∧ (∀ f r, Value f s = Some (r, s') → heap s ⊆ heap s')
  ∧ (∀ f v params r, Push f v params s = Some (r, s') → heap s ⊆ heap s')
  ∧ (∀ f path v params r,
       Set_ f path v params s = Some (r, s') → heap s ⊆ heap s')
  ∧ (∀ f path params r,
       Remove f path params s = Some (r, s') → heap s' = heap s)
  ∧ (∀ f path v params r,
       Update f path v params s = Some (r, s') →
       kept_but_value f s s' ∧ (path ≠ "" → heap s' = heap s)).
Proof.
  split_and!; try (intros; by eapply Update_kept);
    intros; match goal with H : _ = Some _ |- _ => unfold_run H end;
    crack; simpl in *; rewrite ?insert_insert_eq;
    try done; apply heap_sub_new.
Qed.

(** A nil pointer, and a location that [Init] has not given a transport,
    make the methods panic at the point where they need the receiver:
    [Child] and [Remove] always; [Push] and [Update] unless the value
    fails to serialise, for then they return that error first; [Set] the
    same on a location, but always on a nil pointer, whose address it
    reads first; [Value] unless the location holds a value; [Init] on a
    nil pointer only. *)
Theorem unusable_receiver s f :
  unusable s f →
  (∀ path params v, Child f path params v s = None)
  ∧ (∀ path params, Remove f path params s = None)
  ∧ (∀ v params,
       Push f v params s
       = match json_Marshal v with
         | inl e => Some ((None, Some e), s)
         | inr _ => None
         end)
  ∧ (∀ path v params,
       Update f path v params s
       = match json_Marshal v with
         | inl e => Some (Some e, s)
         | inr _ => None
         end)
  ∧ (∀ path v params,
       Set_ f path v params s
       = match f, json_Marshal v with
         | Some _, inl e => Some ((None, Some e), s)
         | _, _ => None
         end)
  ∧ (∀ l x, f = Some l → heap s !! l = Some x →
       Value f s = match value x with
                   | Some d => Some (Some d, s)
                   | None => None
                   end)
  ∧ (f = None →
     Value f s = None ∧ ∀ root auth api0, Init f root auth api0 s = None).
Proof.
  intros [->|(l & x & -> & Hl & Ha)].
  - repeat split; intros; try done.
    + unfold Push. by destruct (json_Marshal v).
    + unfold Update. by destruct (json_Marshal v).
  - repeat split; intros; try done.
    + unfold Child. by rewrite run_bind, (run_deref _ _ _ Hl), run_bind, Ha.
    + unfold Remove. by rewrite run_bind, (run_deref _ _ _ Hl), run_bind, Ha.
    + unfold Push. destruct (json_Marshal v); [done|].
      by rewrite run_bind, (run_deref _ _ _ Hl), run_bind, Ha.
    + unfold Update. destruct (json_Marshal v); [done|].
      by rewrite run_bind, (run_deref _ _ _ Hl), run_bind, Ha.
    + unfold Set_. rewrite run_bind, (run_deref _ _ _ Hl).
      destruct (json_Marshal v); [done|].
      by rewrite run_bind, (run_deref _ _ _ Hl), run_bind, Ha.
    + simplify_eq. unfold Value. rewrite run_bind, (run_deref _ _ _ Hl).
      destruct (value x) as [d|] eqn:Hv.
      * by rewrite run_bind, run_ret, run_bind, (run_deref _ _ _ Hl), Hv.
      * rewrite run_bind. unfold Child.
        by rewrite run_bind, (run_deref _ _ _ Hl), run_bind, Ha.
Qed.

End never.

(** ** The further properties on the test double *)

(** A server that is not there: the send fails and its error comes
    back. *)
Lemma client_Call_library_errors_witness :
  client_Call "GET" "https://x.firebaseio.com/a" "" [] ∅
    ([] : Double.server)
  = (([], Some Double.refused), []).
Proof.
  refine (proj1 (proj2 (client_Call_library_errors
                          (http := Double.http_scripted)
                          "GET" "https://x.firebaseio.com/a" "" [] ∅ []))
            ("GET", "https://x.firebaseio.com/a/.json", [], false)
            Double.refused [] _ _).
  - vm_compute. reflexivity.
  - reflexivity.
Defined.

Lemma client_Call_closes_body_witness :
  snd (client_Call "GET" "https://x.firebaseio.com/a" "" [] ∅
         [(200%Z, Double.bytes "true")])
  = [].
Proof.
  refine (client_Call_closes_body (http := Double.http_scripted)
            "GET" "https://x.firebaseio.com/a" "" [] ∅
            [(200%Z, Double.bytes "true")] []
            ("GET", "https://x.firebaseio.com/a/.json", [], false)
            (mkResponse 200 (Double.bytes "true")) _ _).
  - vm_compute. reflexivity.
  - reflexivity.
Defined.

Lemma client_Call_path_slash_witness :
  client_Call_path ("https://x.firebaseio.com" +:+ "/") "tok" ∅
  = client_Call_path "https://x.firebaseio.com" "tok" ∅.
Proof.
  refine (client_Call_path_slash "https://x.firebaseio.com" "tok" ∅ _).
  vm_compute. reflexivity.
Defined.

Lemma Child_success_witness :
  ∃ l' s', Child (Some 1%positive) "a" ∅ None
             (Double.start None [(200%Z, Double.bytes "true")])
           = Some (Some l', s')
           ∧ heap s' !! l'
             = Some (mkF "https://x.firebaseio.com/a" "tok" (Some client)
                       (Some true)).
Proof.
  destruct (Child_success
              (Double.start None [(200%Z, Double.bytes "true")])
              1%positive (Double.root None) client "a" ∅ None
              (Double.bytes "true") [] (Some true))
    as (l' & s' & Hrun & _ & Hheap & _).
  - vm_compute. reflexivity.
  - reflexivity.
  - vm_compute. reflexivity.
  - reflexivity.
  - exists l', s'. split; [exact Hrun|].
    rewrite Hheap. apply lookup_insert_eq.
Defined.

Lemma Child_of_Child_witness :
  ∃ r s2,
    Child (Some 2%positive) "b" ∅ None
      (mkState {[ 1%positive := Double.root None;
                  2%positive := mkF "https://x.firebaseio.com/a" "tok"
                                  (Some client) (Some true) ]}
         [(200%Z, Double.bytes "false")]
         [mkInvocation "GET" "https://x.firebaseio.com/a" "tok" [] ∅])
    = Some (r, s2)
    ∧ calls s2
      = [mkInvocation "GET" "https://x.firebaseio.com/a" "tok" [] ∅;
         mkInvocation "GET" "https://x.firebaseio.com/a/b" "tok" [] ∅].
Proof.
  destruct (Child_of_Child
              (Double.start None [(200%Z, Double.bytes "true");
                                  (200%Z, Double.bytes "false")])
              1%positive (Double.root None) client "a" ∅ None 2%positive
              (mkState {[ 1%positive := Double.root None;
                          2%positive := mkF "https://x.firebaseio.com/a"
                                          "tok" (Some client) (Some true) ]}
                 [(200%Z, Double.bytes "false")]
                 [mkInvocation "GET" "https://x.firebaseio.com/a" "tok"
                    [] ∅])
              "b" ∅ None)
    as (r & s2 & res & err & Hrun & _ & Hcalls & _).
  - vm_compute. reflexivity.
  - reflexivity.
  - vm_compute. reflexivity.
  - exists r, s2. split; [exact Hrun | exact Hcalls].
Defined.

Lemma Child_then_Value_witness :
  ∃ l' s', Child (Some 1%positive) "a" ∅ None
             (Double.start None [(200%Z, Double.bytes "true")])
           = Some (Some l', s')
           ∧ Value (Some l') s' = Some (Some true, s').
Proof.
  refine (Child_then_Value
            (Double.start None [(200%Z, Double.bytes "true")])
            1%positive (Double.root None) client "a" ∅ None
            (Double.bytes "true") [] true _ _ _ _).
  - vm_compute. reflexivity.
  - reflexivity.
  - vm_compute. reflexivity.
  - reflexivity.
Defined.

Lemma Push_then_Value_witness :
  ∃ l' s', Push (Some 1%positive) (Some true) ∅
             (Double.start None [(200%Z, Double.name_reply "-K1")])
           = Some ((Some l', None), s')
           ∧ Value (Some l') s' = Some (Some true, s').
Proof.
  refine (Push_then_Value
            (Double.start None [(200%Z, Double.name_reply "-K1")])
            1%positive (Double.root None) client true ∅
            (Double.bytes "true") (Double.name_reply "-K1") []
            {[ "name" := "-K1" ]} _ _ _ _ _).
  - vm_compute. reflexivity.
  - reflexivity.
  - reflexivity.
  - vm_compute. reflexivity.
  - vm_compute. reflexivity.
Defined.

Lemma Set_then_Value_witness :
  ∃ l' s', Set_ (Some 1%positive) "a" (Some true) ∅
             (Double.start None [(200%Z, Double.bytes "false")])
           = Some ((Some l', None), s')
           ∧ Value (Some l') s' = Some (Some false, s').
Proof.
  refine (Set_then_Value
            (Double.start None [(200%Z, Double.bytes "false")])
            1%positive (Double.root None) client "a" (Some true) ∅
            (Double.bytes "true") (Double.bytes "false") [] false
            _ _ _ _ _ _).
  - vm_compute. reflexivity.
  - reflexivity.
  - reflexivity.
  - vm_compute. reflexivity.
  - discriminate.
  - reflexivity.
Defined.

Lemma Value_through_client_witness :
  ∃ s', Value (Some 1%positive)
          (Double.start None [(200%Z, Double.bytes "true")])
        = Some (Some true, s')
        ∧ heap s' !! 1%positive = Some (Double.root None)
        ∧ world s' = [].
Proof.
  refine (Value_through_client
            (Double.start None [(200%Z, Double.bytes "true")])
            1%positive (Double.root None)
            ("GET", "https://x.firebaseio.com/.json?auth=tok", [], false)
            (mkResponse 200 (Double.bytes "true")) (Double.bytes "true")
            [] [] _ _ _ _ _ _ _ _).
  - vm_compute. reflexivity.
  - reflexivity.
  - reflexivity.
  - vm_compute. reflexivity.
  - vm_compute. reflexivity.
  - reflexivity.
  - reflexivity.
  - simpl. lia.
Defined.

Lemma Init_spec_witness :
  ∃ s', Init (Some 1%positive) "https://x.firebaseio.com" "tok" None
          (mkState {[ 1%positive := mkF "" "" None None ]}
             ([] : Double.server) [])
        = Some (tt, s')
        ∧ heap s' !! 1%positive = Some (Double.root None).
Proof.
  destruct (Init_spec
              (mkState {[ 1%positive := mkF "" "" None (None : option bool) ]}
                 ([] : Double.server) [])
              1%positive (mkF "" "" None None)
              "https://x.firebaseio.com" "tok" None)
    as (s' & Hrun & Hheap & _).
  - vm_compute. reflexivity.
  - exists s'. split; [exact Hrun|].
    rewrite Hheap. apply lookup_insert_eq.
Defined.

Lemma Init_keeps_value_witness :
  ∃ s', Init (Some 1%positive) "https://y.firebaseio.com" "" None
          (Double.start (Some true) [])
        = Some (tt, s')
        ∧ Value (Some 1%positive) s' = Some (Some true, s')
        ∧ calls s' = [].
Proof.
  refine (Init_keeps_value (Double.start (Some true) []) 1%positive
            (Double.root (Some true)) true "https://y.firebaseio.com" ""
            None _ _).
  - vm_compute. reflexivity.
  - reflexivity.
Defined.

Lemma Update_root_then_Value_witness :
  ∃ s1 s2,
    Update (Some 1%positive) "" (Some false) ∅
      (Double.start (Some true) [(200%Z, Double.bytes "null");
                                 (200%Z, Double.bytes "false")])
    = Some (None, s1)
    ∧ Value (Some 1%positive) s1 = Some (Some false, s2)
    ∧ calls s2
      = [mkInvocation "PATCH" "https://x.firebaseio.com/" "tok"
           (Double.bytes "false") ∅;
         mkInvocation "GET" "https://x.firebaseio.com/" "tok" [] ∅]
    ∧ world s2 = [].
Proof.
  refine (Update_root_then_Value
            (Double.start (Some true) [(200%Z, Double.bytes "null");
                                       (200%Z, Double.bytes "false")])
            1%positive (Double.root (Some true)) client (Some false) ∅
            (Double.bytes "false")
            (Double.bytes "null") None [(200%Z, Double.bytes "false")]
            (Double.bytes "false") None [] _ _ _ _ _).
  - vm_compute. reflexivity.
  - reflexivity.
  - reflexivity.
  - vm_compute. reflexivity.
  - vm_compute. reflexivity.
Defined.

Lemma Update_below_then_Value_witness :
  ∃ s1,
    Update (Some 1%positive) "a" (Some false) ∅
      (Double.start (Some true) [(200%Z, Double.bytes "null")])
    = Some (None, s1)
    ∧ Value (Some 1%positive) s1 = Some (Some true, s1)
    ∧ calls s1
      = [mkInvocation "PATCH" "https://x.firebaseio.com/a" "tok"
           (Double.bytes "false") ∅].
Proof.
  refine (Update_below_then_Value
            (Double.start (Some true) [(200%Z, Double.bytes "null")])
            1%positive (Double.root (Some true)) client true "a"
            (Some false) ∅ (Double.bytes "false")
            (Double.bytes "null") None [] _ _ _ _ _ _).
  - vm_compute. reflexivity.
  - reflexivity.
  - reflexivity.
  - discriminate.
  - reflexivity.
  - vm_compute. reflexivity.
Defined.

Lemma Value_reads_every_time_witness :
  ∃ s1 s2,
    Value (Some 1%positive)
      (Double.start None [(200%Z, Double.bytes "true");
                          (200%Z, Double.bytes "false")])
    = Some (Some true, s1)
    ∧ Value (Some 1%positive) s1 = Some (Some false, s2)
    ∧ calls s2
      = [mkInvocation "GET" "https://x.firebaseio.com/" "tok" [] ∅;
         mkInvocation "GET" "https://x.firebaseio.com/" "tok" [] ∅].
Proof.
  refine (Value_reads_every_time
            (Double.start None [(200%Z, Double.bytes "true");
                                (200%Z, Double.bytes "false")])
            1%positive (Double.root None) client
            (Double.bytes "true") None [(200%Z, Double.bytes "false")]
            (Double.bytes "false") None [] _ _ _ _ _).
  - vm_compute. reflexivity.
  - reflexivity.
  - reflexivity.
  - vm_compute. reflexivity.
  - vm_compute. reflexivity.
Defined.

Lemma methods_issue_one_call_witness :
  issued "DELETE"
    (Double.start None [(200%Z, Double.bytes "null")])
    (mkState {[ 1%positive := Double.root None ]} []
       [mkInvocation "DELETE" "https://x.firebaseio.com/a" "tok" [] ∅]).
Proof.
  refine (proj1 (proj2 (proj2 (proj2 (proj2 (proj2
            (methods_issue_one_call
               (Double.start None [(200%Z, Double.bytes "null")])
               (mkState {[ 1%positive := Double.root None ]} []
                  [mkInvocation "DELETE" "https://x.firebaseio.com/a"
                     "tok" [] ∅])))))))
            (Some 1%positive) "a" ∅ None _).
  vm_compute. reflexivity.
Defined.

Lemma methods_keep_locations_witness :
  heap (Double.start None [(200%Z, Double.bytes "true")])
  ⊆ ({[ 1%positive := Double.root None;
        2%positive := mkF "https://x.firebaseio.com/a" "tok"
                        (Some client) (Some true) ]}
     : gmap loc (F bool Double.server)).
Proof.
  refine (proj1 (methods_keep_locations
                   (Double.start None [(200%Z, Double.bytes "true")])
                   (mkState {[ 1%positive := Double.root None;
                               2%positive := mkF "https://x.firebaseio.com/a"
                                               "tok" (Some client)
                                               (Some true) ]}
                      []
                      [mkInvocation "GET" "https://x.firebaseio.com/a"
                         "tok" [] ∅]))
            (Some 1%positive) "a" ∅ None (Some 2%positive) _).
  vm_compute. reflexivity.
Defined.

Lemma unusable_receiver_witness :
  Child (Some 1%positive) "a" ∅ None
    (mkState {[ 1%positive := mkF "" "" None (None : option bool) ]}
       ([] : Double.server) [])
  = None.
Proof.
  refine (proj1 (unusable_receiver
                   (mkState {[ 1%positive :=
                                 mkF "" "" None (None : option bool) ]}
                      ([] : Double.server) [])
                   (Some 1%positive) _) "a" ∅ None).
  right. exists 1%positive, (mkF "" "" None None).
  split; [reflexivity|]. split; [|reflexivity].
  vm_compute. reflexivity.
Defined.
